(** * twigsnake: a leveled-logging facade over Go's [log.Logger]

    The repository holds one data structure twice: [twigsnake.Logger]
    and its near-copy [nlog.NLog].  Each owns an integer logging level and
    eight pointers to standard loggers, one per RFC 5424 severity.  This
    development embeds both packages over an explicit store of standard
    loggers and a trace of the print calls that reached a writer, and
    proves the filtering, validation and framing properties of the
    interface. *)

From Stdlib Require Import ZArith Lia.
From stdpp Require Import base list strings.

Local Open Scope string_scope.
Local Open Scope list_scope.

(** ** The fragment of the Go runtime the packages rest on *)

(** [errors.New(msg)]: an error is known by its message. *)
Definition error := string.
Definition errors_New (msg : string) : error := msg.

(** Operands of the variadic [v ...interface{}]; the logger hands them on
    untouched. *)
Inductive Value :=
| VString (s : string)
| VInt (n : Z)
| VBool (b : bool)
| VError (e : error).

(** A non-nil [io.Writer], known by its identity. *)
Definition Writer := string.

(** A [*log.Logger]: either nil or the address of a standard logger. *)
Inductive ptr :=
| nil_ptr
| addr (a : nat).

(** What stops a call from running to completion: a nil dereference (a
    run-time panic) or a selector naming no field of the receiver (the
    compiler rejects it). *)
Inductive fault :=
| NilDeref
| NoField (name : string).

Inductive res (A : Type) :=
| Ok (a : A)
| Fault (f : fault).
Arguments Ok {A} a.
Arguments Fault {A} f.

(** Computations over a store [S] that may fault. *)
Definition M (S A : Type) : Type := S -> res (A * S).

Definition ret {S A} (a : A) : M S A := fun s => Ok (a, s).

Definition bind {S A B} (m : M S A) (k : A -> M S B) : M S B :=
  fun s => match m s with
           | Ok (a, s') => k a s'
           | Fault f => Fault f
           end.

Definition raise {S A} (f : fault) : M S A := fun _ => Fault f.

Notation "'let*' x ':=' m 'in' k" := (bind m (fun x => k))
  (at level 10, x name, m at level 100, k at level 200).

(** ** Package [log] of the standard library, as far as the facade uses it *)

Module log.

(** Flag bits, [1 << iota]. *)
Definition Ldate : Z := 1.
Definition Ltime : Z := 2.
Definition Lmicroseconds : Z := 4.
Definition Llongfile : Z := 8.
Definition Lshortfile : Z := 16.
Definition LUTC : Z := 32.
Definition Lmsgprefix : Z := 64.

(** The configuration of one standard logger. *)
Record Logger := mkLogger {
  out : Writer;
  prefix : string;
  flag : Z
}.

(** The three print primitives, with the operands they were given. *)
Inductive call :=
| CPrint (v : list Value)
| CPrintf (format : string) (v : list Value)
| CPrintln (v : list Value).

(** One line handed to a writer: the configuration it was written
    under (destination, prefix, flags) and the primitive that wrote it. *)
Record entry := mkEntry {
  under : Logger;
  body : call
}.

(** All standard loggers allocated so far, and every line written. *)
Record World := mkWorld {
  heap : list Logger;
  written : list entry
}.

(** [log.New(out, prefix, flag)] allocates a fresh logger. *)
Definition New (w : Writer) (p : string) (f : Z) (h : World)
  : ptr * World :=
  (addr (length (heap h)),
   mkWorld (heap h ++ [mkLogger w p f]) (written h)).

Definition deref (p : ptr) : M World Logger :=
  fun h => match p with
           | nil_ptr => Fault NilDeref
           | addr a => match heap h !! a with
                       | Some l => Ok (l, h)
                       | None => Fault NilDeref
                       end
           end.

Definition store (p : ptr) (l : Logger) : M World unit :=
  fun h => match p with
           | nil_ptr => Fault NilDeref
           | addr a => Ok (tt, mkWorld (<[a := l]> (heap h)) (written h))
           end.

(** [Output]: exactly one write to the logger's destination; a
    failure of the writer is not reported to the caller of a print
    primitive. *)
Definition Output (p : ptr) (c : call) : M World unit :=
  let* l := deref p in
  fun h => Ok (tt, mkWorld (heap h) (written h ++ [mkEntry l c])).

Definition Print (p : ptr) (v : list Value) : M World unit :=
  Output p (CPrint v).

Definition Printf (p : ptr) (format : string) (v : list Value)
  : M World unit :=
  Output p (CPrintf format v).

Definition Println (p : ptr) (v : list Value) : M World unit :=
  Output p (CPrintln v).

Definition SetOutput (p : ptr) (w : Writer) : M World unit :=
  let* l := deref p in
  store p (mkLogger w (prefix l) (flag l)).

Definition SetPrefix (p : ptr) (s : string) : M World unit :=
  let* l := deref p in
  store p (mkLogger (out l) s (flag l)).

Definition SetFlags (p : ptr) (f : Z) : M World unit :=
  let* l := deref p in
  store p (mkLogger (out l) (prefix l) f).

(** What the clock and the call stack supply when a line is stamped. *)
Record Stamp := mkStamp {
  date : string;
  clock : string;
  micros : string;
  utc_date : string;
  utc_clock : string;
  longfile : string;
  shortfile : string;
  lineno : string
}.

Definition has (f bits : Z) : bool := negb (Z.land f bits =? 0)%Z.

(** [formatHeader]: the text put in front of the message. *)
Definition formatHeader (l : Logger) (t : Stamp) : string :=
  let f := flag l in
  (if has f Lmsgprefix then "" else prefix l)
  +:+ (if has f (Z.lor (Z.lor Ldate Ltime) Lmicroseconds) then
         (if has f Ldate
          then (if has f LUTC then utc_date t else date t) +:+ " "
          else "")
         +:+ (if has f (Z.lor Ltime Lmicroseconds)
              then (if has f LUTC then utc_clock t else clock t)
                   +:+ (if has f Lmicroseconds then "." +:+ micros t else "")
                   +:+ " "
              else "")
       else "")
  +:+ (if has f (Z.lor Lshortfile Llongfile) then
         (if has f Lshortfile then shortfile t else longfile t)
         +:+ ":" +:+ lineno t +:+ ": "
       else "")
  +:+ (if has f Lmsgprefix then prefix l else "").

End log.

(** The store a method of the facade runs in: the receiver it points to,
    and the world of standard loggers. *)
Record Mem (T : Type) := mkMem {
  this : T;
  world : log.World
}.
Arguments mkMem {T} this world.
Arguments this {T} m.
Arguments world {T} m.

Definition self {T} : M (Mem T) T := fun s => Ok (this s, s).

Definition assign {T} (t : T) : M (Mem T) unit :=
  fun s => Ok (tt, mkMem t (world s)).

Definition in_world {T A} (m : M log.World A) : M (Mem T) A :=
  fun s => match m (world s) with
           | Ok (a, h) => Ok (a, mkMem (this s) h)
           | Fault f => Fault f
           end.

(** [st] with one more line written. *)
Definition add_line {T} (st : Mem T) (e : log.entry) : Mem T :=
  mkMem (this st)
        (log.mkWorld (log.heap (world st)) (log.written (world st) ++ [e])).

(** The eight severities and the three ways to print at each. *)
Inductive Severity :=
| SevEmerg | SevAlert | SevCrit | SevError
| SevWarn | SevNotice | SevInfo | SevDebug.

Inductive Variant := Plain | Formatted | Line.

Definition severities : list Severity :=
  [SevEmerg; SevAlert; SevCrit; SevError; SevWarn; SevNotice; SevInfo; SevDebug].

Definition variants : list Variant := [Plain; Formatted; Line].

(** The print primitive a variant stands for. *)
Definition call_of (k : Variant) (format : string) (v : list Value) : log.call :=
  match k with
  | Plain => log.CPrint v
  | Formatted => log.CPrintf format v
  | Line => log.CPrintln v
  end.

(** The caller's operations on a logger: the methods of the facade, and
    the reconfiguration of one severity's standard logger through its
    exported field. *)
Inductive Op :=
| OLogLevel
| OSetLogLevel (lvl : Z)
| OEmit (s : Severity) (k : Variant) (format : string) (v : list Value)
| OSetOutput (s : Severity) (w : Writer)
| OSetPrefix (s : Severity) (p : string)
| OSetFlags (s : Severity) (f : Z).

(** ** Package [twigsnake] *)

Module twigsnake.

Definition LOG_EMERG : Z := 0.
Definition LOG_ALERT : Z := 1.
Definition LOG_CRIT : Z := 2.
Definition LOG_ERROR : Z := 3.
Definition LOG_WARN : Z := 4.
Definition LOG_NOTICE : Z := 5.
Definition LOG_INFO : Z := 6.
Definition LOG_DEBUG : Z := 7.

(** Go's [int] is read as [Z]: the level is compared, never computed with. *)
Record Logger := mkLogger {
  logLevel : Z;
  EmergLogger : ptr;
  AlertLogger : ptr;
  CritLogger : ptr;
  ErrorLogger : ptr;
  WarningLogger : ptr;
  NoticeLogger : ptr;
  InfoLogger : ptr;
  DebugLogger : ptr
}.

(** [l.logLevel = lvl] *)
Definition set_logLevel (lvl : Z) (l : Logger) : Logger :=
  mkLogger lvl (EmergLogger l) (AlertLogger l) (CritLogger l)
           (ErrorLogger l) (WarningLogger l) (NoticeLogger l)
           (InfoLogger l) (DebugLogger l).

Definition St := Mem Logger.

Definition checkLogLevel (lvl : Z) : option error :=
  if negb ((lvl >=? 0)%Z && (lvl <=? 7)%Z)
  then Some (errors_New "invalid severity level")
  else None.

Definition default_flags : Z :=
  Z.lor (Z.lor log.Ldate log.Ltime) log.Lmsgprefix.

Definition New (lvl : Z) (dest : Writer) (h : log.World)
  : (option Logger * option error) * log.World :=
  match checkLogLevel lvl with
  | Some err => ((None, Some err), h)
  | None =>
    let '(p0, h) := log.New dest "[EMERG] " default_flags h in
    let '(p1, h) := log.New dest "[ALERT] " default_flags h in
    let '(p2, h) := log.New dest "[CRIT] " default_flags h in
    let '(p3, h) := log.New dest "[ERROR] " default_flags h in
    let '(p4, h) := log.New dest "[WARN] " default_flags h in
    let '(p5, h) := log.New dest "[NOTICE] " default_flags h in
    let '(p6, h) := log.New dest "[INFO] " default_flags h in
    let '(p7, h) := log.New dest "[DEBUG] " default_flags h in
    ((Some (mkLogger lvl p0 p1 p2 p3 p4 p5 p6 p7), None), h)
  end.

Definition LogLevel : M St Z :=
  let* l := self in
  ret (logLevel l).

Definition SetLogLevel (lvl : Z) : M St (option error) :=
  match checkLogLevel lvl with
  | Some err => ret (Some err)
  | None =>
    let* l := self in
    let* _ := assign (set_logLevel lvl l) in
    ret None
  end.

Definition Emerg (v : list Value) : M St unit :=
  let* l := self in
  in_world (log.Print (EmergLogger l) v).

Definition Emergf (format : string) (v : list Value) : M St unit :=
  let* l := self in
  in_world (log.Printf (EmergLogger l) format v).

Definition Emergln (v : list Value) : M St unit :=
  let* l := self in
  in_world (log.Println (EmergLogger l) v).

Definition Alert (v : list Value) : M St unit :=
  let* l := self in
  if (logLevel l >=? LOG_ALERT)%Z
  then in_world (log.Print (AlertLogger l) v)
  else ret tt.

Definition Alertf (format : string) (v : list Value) : M St unit :=
  let* l := self in
  if (logLevel l >=? LOG_ALERT)%Z
  then in_world (log.Printf (AlertLogger l) format v)
  else ret tt.

Definition Alertln (v : list Value) : M St unit :=
  let* l := self in
  if (logLevel l >=? LOG_ALERT)%Z
  then in_world (log.Println (AlertLogger l) v)
  else ret tt.

Definition Crit (v : list Value) : M St unit :=
  let* l := self in
  if (logLevel l >=? LOG_CRIT)%Z
  then in_world (log.Print (CritLogger l) v)
  else ret tt.

Definition Critf (format : string) (v : list Value) : M St unit :=
  let* l := self in
  if (logLevel l >=? LOG_CRIT)%Z
  then in_world (log.Printf (CritLogger l) format v)
  else ret tt.

Definition Critln (v : list Value) : M St unit :=
  let* l := self in
  if (logLevel l >=? LOG_CRIT)%Z
  then in_world (log.Println (CritLogger l) v)
  else ret tt.

Definition Error (v : list Value) : M St unit :=
  let* l := self in
  if (logLevel l >=? LOG_ERROR)%Z
  then in_world (log.Print (ErrorLogger l) v)
  else ret tt.

Definition Errorf (format : string) (v : list Value) : M St unit :=
  let* l := self in
  if (logLevel l >=? LOG_ERROR)%Z
  then in_world (log.Printf (ErrorLogger l) format v)
  else ret tt.

Definition Errorln (v : list Value) : M St unit :=
  let* l := self in
  if (logLevel l >=? LOG_ERROR)%Z
  then in_world (log.Println (ErrorLogger l) v)
  else ret tt.

Definition Warn (v : list Value) : M St unit :=
  let* l := self in
  if (logLevel l >=? LOG_WARN)%Z
  then in_world (log.Print (WarningLogger l) v)
  else ret tt.

Definition Warnf (format : string) (v : list Value) : M St unit :=
  let* l := self in
  if (logLevel l >=? LOG_WARN)%Z
  then in_world (log.Printf (WarningLogger l) format v)
  else ret tt.

Definition Warnln (v : list Value) : M St unit :=
  let* l := self in
  if (logLevel l >=? LOG_WARN)%Z
  then in_world (log.Println (WarningLogger l) v)
  else ret tt.

Definition Notice (v : list Value) : M St unit :=
  let* l := self in
  if (logLevel l >=? LOG_NOTICE)%Z
  then in_world (log.Print (NoticeLogger l) v)
  else ret tt.

Definition Noticef (format : string) (v : list Value) : M St unit :=
  let* l := self in
  if (logLevel l >=? LOG_NOTICE)%Z
  then in_world (log.Printf (NoticeLogger l) format v)
  else ret tt.

Definition Noticeln (v : list Value) : M St unit :=
  let* l := self in
  if (logLevel l >=? LOG_NOTICE)%Z
  then in_world (log.Println (NoticeLogger l) v)
  else ret tt.

Definition Info (v : list Value) : M St unit :=
  let* l := self in
  if (logLevel l >=? LOG_INFO)%Z
  then in_world (log.Print (InfoLogger l) v)
  else ret tt.

Definition Infof (format : string) (v : list Value) : M St unit :=
  let* l := self in
  if (logLevel l >=? LOG_INFO)%Z
  then in_world (log.Printf (InfoLogger l) format v)
  else ret tt.

Definition Infoln (v : list Value) : M St unit :=
  let* l := self in
  if (logLevel l >=? LOG_INFO)%Z
  then in_world (log.Println (InfoLogger l) v)
  else ret tt.

Definition Debug (v : list Value) : M St unit :=
  let* l := self in
  if (logLevel l >=? LOG_DEBUG)%Z
  then in_world (log.Print (DebugLogger l) v)
  else ret tt.

Definition Debugf (format : string) (v : list Value) : M St unit :=
  let* l := self in
  if (logLevel l >=? LOG_DEBUG)%Z
  then in_world (log.Printf (DebugLogger l) format v)
  else ret tt.

Definition Debugln (v : list Value) : M St unit :=
  let* l := self in
  if (logLevel l >=? LOG_DEBUG)%Z
  then in_world (log.Println (DebugLogger l) v)
  else ret tt.

(** The rank of a severity, and the field that holds its logger. *)
Definition rank (s : Severity) : Z :=
  match s with
  | SevEmerg => LOG_EMERG
  | SevAlert => LOG_ALERT
  | SevCrit => LOG_CRIT
  | SevError => LOG_ERROR
  | SevWarn => LOG_WARN
  | SevNotice => LOG_NOTICE
  | SevInfo => LOG_INFO
  | SevDebug => LOG_DEBUG
  end.

Definition handle (s : Severity) (l : Logger) : ptr :=
  match s with
  | SevEmerg => EmergLogger l
  | SevAlert => AlertLogger l
  | SevCrit => CritLogger l
  | SevError => ErrorLogger l
  | SevWarn => WarningLogger l
  | SevNotice => NoticeLogger l
  | SevInfo => InfoLogger l
  | SevDebug => DebugLogger l
  end.

(** The 24 emission entry points, by severity and variant. *)
Definition emit (s : Severity) (k : Variant) (format : string)
           (v : list Value) : M St unit :=
  match s, k with
  | SevEmerg, Plain => Emerg v
  | SevEmerg, Formatted => Emergf format v
  | SevEmerg, Line => Emergln v
  | SevAlert, Plain => Alert v
  | SevAlert, Formatted => Alertf format v
  | SevAlert, Line => Alertln v
  | SevCrit, Plain => Crit v
  | SevCrit, Formatted => Critf format v
  | SevCrit, Line => Critln v
  | SevError, Plain => Error v
  | SevError, Formatted => Errorf format v
  | SevError, Line => Errorln v
  | SevWarn, Plain => Warn v
  | SevWarn, Formatted => Warnf format v
  | SevWarn, Line => Warnln v
  | SevNotice, Plain => Notice v
  | SevNotice, Formatted => Noticef format v
  | SevNotice, Line => Noticeln v
  | SevInfo, Plain => Info v
  | SevInfo, Formatted => Infof format v
  | SevInfo, Line => Infoln v
  | SevDebug, Plain => Debug v
  | SevDebug, Formatted => Debugf format v
  | SevDebug, Line => Debugln v
  end.

(** One operation of the caller, and a sequence of them. *)
Definition step (o : Op) : M St unit :=
  match o with
  | OLogLevel => let* _ := LogLevel in ret tt
  | OSetLogLevel lvl => let* _ := SetLogLevel lvl in ret tt
  | OEmit s k format v => emit s k format v
  | OSetOutput s w =>
    let* l := self in in_world (log.SetOutput (handle s l) w)
  | OSetPrefix s p =>
    let* l := self in in_world (log.SetPrefix (handle s l) p)
  | OSetFlags s f =>
    let* l := self in in_world (log.SetFlags (handle s l) f)
  end.

Fixpoint run (os : list Op) : M St unit :=
  match os with
  | [] => ret tt
  | o :: os' => let* _ := step o in run os'
  end.

End twigsnake.

(** ** Package [nlog], the second copy *)

Module nlog.

Definition LOG_EMERG : Z := 0.
Definition LOG_ALERT : Z := 1.
Definition LOG_CRIT : Z := 2.
Definition LOG_ERROR : Z := 3.
Definition LOG_WARN : Z := 4.
Definition LOG_NOTICE : Z := 5.
Definition LOG_INFO : Z := 6.
Definition LOG_DEBUG : Z := 7.

Record NLog := mkNLog {
  logLevel : Z;
  EmergLogger : ptr;
  AlertLogger : ptr;
  CritLogger : ptr;
  ErrorLogger : ptr;
  WarningLogger : ptr;
  NoticeLogger : ptr;
  InfoLogger : ptr;
  DebugLogger : ptr
}.

(** [n.logLevel = lvl] *)
Definition set_logLevel (lvl : Z) (n : NLog) : NLog :=
  mkNLog lvl (EmergLogger n) (AlertLogger n) (CritLogger n)
         (ErrorLogger n) (WarningLogger n) (NoticeLogger n)
         (InfoLogger n) (DebugLogger n).

Definition St := Mem NLog.

(** Reading an integer field by the name the source spells: the
    struct declares exactly one, [logLevel]. *)
Definition selector (n : NLog) (name : string) : M St Z :=
  if decide (name = "logLevel") then ret (logLevel n)
  else raise (NoField name).

Definition checkLogLevel (lvl : Z) : option error :=
  if negb ((lvl >=? 0)%Z && (lvl <=? 7)%Z)
  then Some (errors_New "invalid severity level")
  else None.

Definition default_flags : Z :=
  Z.lor (Z.lor log.Ldate log.Ltime) log.Lmsgprefix.

Definition New (lvl : Z) (dest : Writer) (h : log.World)
  : (option NLog * option error) * log.World :=
  match checkLogLevel lvl with
  | Some err => ((None, Some err), h)
  | None =>
    let '(p0, h) := log.New dest "[EMERG] " default_flags h in
    let '(p1, h) := log.New dest "[ALERT] " default_flags h in
    let '(p2, h) := log.New dest "[CRIT] " default_flags h in
    let '(p3, h) := log.New dest "[ERROR] " default_flags h in
    let '(p4, h) := log.New dest "[WARN] " default_flags h in
    let '(p5, h) := log.New dest "[NOTICE] " default_flags h in
    let '(p6, h) := log.New dest "[INFO] " default_flags h in
    let '(p7, h) := log.New dest "[DEBUG] " default_flags h in
    ((Some (mkNLog lvl p0 p1 p2 p3 p4 p5 p6 p7), None), h)
  end.

Definition LogLevel : M St Z :=
  let* n := self in
  ret (logLevel n).

Definition SetLogLevel (lvl : Z) : M St (option error) :=
  match checkLogLevel lvl with
  | Some err => ret (Some err)
  | None =>
    let* n := self in
    let* _ := assign (set_logLevel lvl n) in
    ret None
  end.

Definition Emerg (v : list Value) : M St unit :=
  let* n := self in
  in_world (log.Print (EmergLogger n) v).

Definition Emergf (format : string) (v : list Value) : M St unit :=
  let* n := self in
  in_world (log.Printf (EmergLogger n) format v).

Definition Emergln (v : list Value) : M St unit :=
  let* n := self in
  in_world (log.Println (EmergLogger n) v).

Definition Alert (v : list Value) : M St unit :=
  let* n := self in
  if (logLevel n >=? LOG_ALERT)%Z
  then in_world (log.Print (AlertLogger n) v)
  else ret tt.

Definition Alertf (format : string) (v : list Value) : M St unit :=
  let* n := self in
  if (logLevel n >=? LOG_ALERT)%Z
  then in_world (log.Printf (AlertLogger n) format v)
  else ret tt.

Definition Alertln (v : list Value) : M St unit :=
  let* n := self in
  if (logLevel n >=? LOG_ALERT)%Z
  then in_world (log.Println (AlertLogger n) v)
  else ret tt.

Definition Crit (v : list Value) : M St unit :=
  let* n := self in
  if (logLevel n >=? LOG_CRIT)%Z
  then in_world (log.Print (CritLogger n) v)
  else ret tt.

Definition Critf (format : string) (v : list Value) : M St unit :=
  let* n := self in
  if (logLevel n >=? LOG_CRIT)%Z
  then in_world (log.Printf (CritLogger n) format v)
  else ret tt.

Definition Critln (v : list Value) : M St unit :=
  let* n := self in
  if (logLevel n >=? LOG_CRIT)%Z
  then in_world (log.Println (CritLogger n) v)
  else ret tt.

Definition Error (v : list Value) : M St unit :=
  let* n := self in
  if (logLevel n >=? LOG_ERROR)%Z
  then in_world (log.Print (ErrorLogger n) v)
  else ret tt.

Definition Errorf (format : string) (v : list Value) : M St unit :=
  let* n := self in
  if (logLevel n >=? LOG_ERROR)%Z
  then in_world (log.Printf (ErrorLogger n) format v)
  else ret tt.

(** The guard reads [n.loglLevel], which names no field of [NLog]. *)
Definition Errorln (v : list Value) : M St unit :=
  let* n := self in
  let* lvl := selector n "loglLevel" in
  if (lvl >=? LOG_ERROR)%Z
  then in_world (log.Println (ErrorLogger n) v)
  else ret tt.

Definition Warn (v : list Value) : M St unit :=
  let* n := self in
  if (logLevel n >=? LOG_WARN)%Z
  then in_world (log.Print (WarningLogger n) v)
  else ret tt.

Definition Warnf (format : string) (v : list Value) : M St unit :=
  let* n := self in
  if (logLevel n >=? LOG_WARN)%Z
  then in_world (log.Printf (WarningLogger n) format v)
  else ret tt.

Definition Warnln (v : list Value) : M St unit :=
  let* n := self in
  if (logLevel n >=? LOG_WARN)%Z
  then in_world (log.Println (WarningLogger n) v)
  else ret tt.

Definition Notice (v : list Value) : M St unit :=
  let* n := self in
  if (logLevel n >=? LOG_NOTICE)%Z
  then in_world (log.Print (NoticeLogger n) v)
  else ret tt.

Definition Noticef (format : string) (v : list Value) : M St unit :=
  let* n := self in
  if (logLevel n >=? LOG_NOTICE)%Z
  then in_world (log.Printf (NoticeLogger n) format v)
  else ret tt.

Definition Noticeln (v : list Value) : M St unit :=
  let* n := self in
  if (logLevel n >=? LOG_NOTICE)%Z
  then in_world (log.Println (NoticeLogger n) v)
  else ret tt.

Definition Info (v : list Value) : M St unit :=
  let* n := self in
  if (logLevel n >=? LOG_INFO)%Z
  then in_world (log.Print (InfoLogger n) v)
  else ret tt.

Definition Infof (format : string) (v : list Value) : M St unit :=
  let* n := self in
  if (logLevel n >=? LOG_INFO)%Z
  then in_world (log.Printf (InfoLogger n) format v)
  else ret tt.

Definition Infoln (v : list Value) : M St unit :=
  let* n := self in
  if (logLevel n >=? LOG_INFO)%Z
  then in_world (log.Println (InfoLogger n) v)
  else ret tt.

Definition Debug (v : list Value) : M St unit :=
  let* n := self in
  if (logLevel n >=? LOG_DEBUG)%Z
  then in_world (log.Print (DebugLogger n) v)
  else ret tt.

Definition Debugf (format : string) (v : list Value) : M St unit :=
  let* n := self in
  if (logLevel n >=? LOG_DEBUG)%Z
  then in_world (log.Printf (DebugLogger n) format v)
  else ret tt.

Definition Debugln (v : list Value) : M St unit :=
  let* n := self in
  if (logLevel n >=? LOG_DEBUG)%Z
  then in_world (log.Println (DebugLogger n) v)
  else ret tt.

(** The field that holds the logger of a severity. *)
Definition handle (s : Severity) (n : NLog) : ptr :=
  match s with
  | SevEmerg => EmergLogger n
  | SevAlert => AlertLogger n
  | SevCrit => CritLogger n
  | SevError => ErrorLogger n
  | SevWarn => WarningLogger n
  | SevNotice => NoticeLogger n
  | SevInfo => InfoLogger n
  | SevDebug => DebugLogger n
  end.

(** The 24 emission entry points, by severity and variant. *)
Definition emit (s : Severity) (k : Variant) (format : string)
           (v : list Value) : M St unit :=
  match s, k with
  | SevEmerg, Plain => Emerg v
  | SevEmerg, Formatted => Emergf format v
  | SevEmerg, Line => Emergln v
  | SevAlert, Plain => Alert v
  | SevAlert, Formatted => Alertf format v
  | SevAlert, Line => Alertln v
  | SevCrit, Plain => Crit v
  | SevCrit, Formatted => Critf format v
  | SevCrit, Line => Critln v
  | SevError, Plain => Error v
  | SevError, Formatted => Errorf format v
  | SevError, Line => Errorln v
  | SevWarn, Plain => Warn v
  | SevWarn, Formatted => Warnf format v
  | SevWarn, Line => Warnln v
  | SevNotice, Plain => Notice v
  | SevNotice, Formatted => Noticef format v
  | SevNotice, Line => Noticeln v
  | SevInfo, Plain => Info v
  | SevInfo, Formatted => Infof format v
  | SevInfo, Line => Infoln v
  | SevDebug, Plain => Debug v
  | SevDebug, Formatted => Debugf format v
  | SevDebug, Line => Debugln v
  end.

(** One operation of the caller, and a sequence of them. *)
Definition step (o : Op) : M St unit :=
  match o with
  | OLogLevel => let* _ := LogLevel in ret tt
  | OSetLogLevel lvl => let* _ := SetLogLevel lvl in ret tt
  | OEmit s k format v => emit s k format v
  | OSetOutput s w =>
    let* n := self in in_world (log.SetOutput (handle s n) w)
  | OSetPrefix s p =>
    let* n := self in in_world (log.SetPrefix (handle s n) p)
  | OSetFlags s f =>
    let* n := self in in_world (log.SetFlags (handle s n) f)
  end.

Fixpoint run (os : list Op) : M St unit :=
  match os with
  | [] => ret tt
  | o :: os' => let* _ := step o in run os'
  end.

(** The [NLog] with the fields of a [twigsnake.Logger], name by name. *)
Definition of_Logger (l : twigsnake.Logger) : NLog :=
  mkNLog (twigsnake.logLevel l)
         (twigsnake.EmergLogger l) (twigsnake.AlertLogger l)
         (twigsnake.CritLogger l) (twigsnake.ErrorLogger l)
         (twigsnake.WarningLogger l) (twigsnake.NoticeLogger l)
         (twigsnake.InfoLogger l) (twigsnake.DebugLogger l).

Definition of_St (s : twigsnake.St) : St :=
  mkMem (of_Logger (this s)) (world s).

(** An outcome of [twigsnake], read as an outcome of [nlog]. *)
Definition of_res {A} (r : res (A * twigsnake.St)) : res (A * St) :=
  match r with
  | Ok (a, s) => Ok (a, of_St s)
  | Fault f => Fault f
  end.

End nlog.

(** ** Notions the statements are written in *)

(** The error of [checkLogLevel], the only one the packages produce. *)
Definition InvalidSeverityError : error := errors_New "invalid severity level".

Module Import TwigsnakeObs.
Import twigsnake.

(** The standard logger a severity's field points to, if any. *)
Definition sublogger (s : Severity) (st : St) : option log.Logger :=
  match handle s (this st) with
  | nil_ptr => None
  | addr a => log.heap (world st) !! a
  end.

(** The outcome of handing the operands to the severity's logger. *)
Definition printed (s : Severity) (k : Variant) (format : string)
           (v : list Value) : M St unit :=
  fun st => in_world (log.Output (handle s (this st)) (call_of k format v)) st.

(** [st'] is [st] with exactly one more line written. *)
Definition one_more_line (st st' : St) : Prop :=
  exists e, log.written (world st') = log.written (world st) ++ [e].

(** The filter as the methods spell it: the emergency methods have no
    guard, the others compare the level with their constant. *)
Definition passes (s : Severity) (lvl : Z) : bool :=
  match s with
  | SevEmerg => true
  | _ => (lvl >=? rank s)%Z
  end.

(** The position of a severity's logger among the eight that [New]
    allocates. *)
Definition index (s : Severity) : nat :=
  match s with
  | SevEmerg => 0 | SevAlert => 1 | SevCrit => 2 | SevError => 3
  | SevWarn => 4 | SevNotice => 5 | SevInfo => 6 | SevDebug => 7
  end.

(** A state is well formed when its level is a severity and its eight
    fields point to eight consecutive, allocated standard loggers. *)
Definition wf (st : St) : Prop :=
  (0 <= logLevel (this st) <= 7)%Z /\
  exists base, base + 8 <= length (log.heap (world st)) /\
               forall s, handle s (this st) = addr (base + index s).

(** States a caller can reach: a successful [New], then any operations. *)
Definition reachable (st : St) : Prop :=
  exists lvl dest h0 l h1 os,
    New lvl dest h0 = ((Some l, None), h1) /\
    run os (mkMem l h1) = Ok (tt, st).

(** The severity whose standard logger an operation reconfigures. *)
Definition target (o : Op) : option Severity :=
  match o with
  | OSetOutput s _ | OSetPrefix s _ | OSetFlags s _ => Some s
  | _ => None
  end.

(** The configuration a reconfiguring operation leaves behind. *)
Definition reconf (o : Op) (l : log.Logger) : log.Logger :=
  match o with
  | OSetOutput _ w => log.mkLogger w (log.prefix l) (log.flag l)
  | OSetPrefix _ p => log.mkLogger (log.out l) p (log.flag l)
  | OSetFlags _ f => log.mkLogger (log.out l) (log.prefix l) f
  | _ => l
  end.

Definition stdout : Writer := "stdout".

(** [st] with the level overwritten by any integer at all. *)
Definition with_level (lvl : Z) (st : St) : St :=
  mkMem (set_logLevel lvl (this st)) (world st).

(** Does an emission at [s] from a fresh logger at level [t] write a line? *)
Definition writes_at (t : Z) (s : Severity) (k : Variant) : bool :=
  match New t stdout (log.mkWorld [] []) with
  | ((Some l, None), h) =>
    match emit s k "%v" [VString "x"] (mkMem l h) with
    | Ok (_, st') =>
      bool_decide (length (log.written (world st')) = 1)
    | Fault _ => false
    end
  | _ => false
  end.

(** The 8 x 8 matrix of levels and severities, for each variant. *)
Definition matrix_ok : bool :=
  forallb (fun t =>
    forallb (fun s =>
      forallb (fun k => bool_decide (writes_at t s k = (t >=? rank s)%Z))
              variants)
            severities)
          [0; 1; 2; 3; 4; 5; 6; 7]%Z.

(** A logger as [New] builds it in an empty world, for the examples. *)
Definition demo_world : log.World :=
  log.mkWorld
    [log.mkLogger stdout "[EMERG] " default_flags;
     log.mkLogger stdout "[ALERT] " default_flags;
     log.mkLogger stdout "[CRIT] " default_flags;
     log.mkLogger stdout "[ERROR] " default_flags;
     log.mkLogger stdout "[WARN] " default_flags;
     log.mkLogger stdout "[NOTICE] " default_flags;
     log.mkLogger stdout "[INFO] " default_flags;
     log.mkLogger stdout "[DEBUG] " default_flags]
    [].

Definition demo_logger (lvl : Z) : Logger :=
  mkLogger lvl (addr 0) (addr 1) (addr 2) (addr 3)
           (addr 4) (addr 5) (addr 6) (addr 7).

Definition demo (lvl : Z) : St := mkMem (demo_logger lvl) demo_world.

(** The prefix [New] gives the logger of each severity. *)
Definition bracket (s : Severity) : string :=
  match s with
  | SevEmerg => "[EMERG] "
  | SevAlert => "[ALERT] "
  | SevCrit => "[CRIT] "
  | SevError => "[ERROR] "
  | SevWarn => "[WARN] "
  | SevNotice => "[NOTICE] "
  | SevInfo => "[INFO] "
  | SevDebug => "[DEBUG] "
  end.

(** How many of the operations are emissions. *)
Fixpoint emissions (os : list Op) : nat :=
  match os with
  | [] => 0
  | OEmit _ _ _ _ :: os' => S (emissions os')
  | _ :: os' => emissions os'
  end.

(** The part of a standard logger a reconfiguration overwrites. *)
Inductive Attr := AOut | APrefix | AFlags.

Definition attr (o : Op) : option Attr :=
  match o with
  | OSetOutput _ _ => Some AOut
  | OSetPrefix _ _ => Some APrefix
  | OSetFlags _ _ => Some AFlags
  | _ => None
  end.

(** The zero value [twigsnake.Logger{}]: level 0 and eight nil fields. *)
Definition zero_Logger : Logger :=
  mkLogger 0 nil_ptr nil_ptr nil_ptr nil_ptr nil_ptr nil_ptr nil_ptr nil_ptr.

(** A logger as [New] builds it where one standard logger, not its own,
    already exists at address 0. *)
Definition foreign : log.Logger := log.mkLogger "audit.log" "" 0.

Definition guest (lvl : Z) : St :=
  mkMem (mkLogger lvl (addr 1) (addr 2) (addr 3) (addr 4)
                  (addr 5) (addr 6) (addr 7) (addr 8))
        (log.mkWorld (foreign :: log.heap demo_world) []).

(** The two programs of the package documentation, after their [New]. *)
Definition basic_usage : list Op :=
  [OEmit SevInfo Line "" [VString "This is informational message"];
   OEmit SevNotice Formatted
         "Formatted notice message: here are some random numbers and strings: %d, %s"
         [VInt 10; VString "random string"];
   OEmit SevDebug Line "" [VString "This debug message won't appear"];
   OSetLogLevel LOG_DEBUG;
   OEmit SevDebug Line "" [VString "Behold! Debug message"]].

Definition advanced_usage (debugLog : Writer) : list Op :=
  [OSetFlags SevDebug (Z.lor log.Ldate log.Lmicroseconds);
   OSetPrefix SevDebug "";
   OSetOutput SevDebug debugLog;
   OEmit SevInfo Line "" [VString "Regular message"];
   OEmit SevDebug Line "" [VString "Debug message"]].

End TwigsnakeObs.

Module NlogObs.
Import nlog.

Definition sublogger (s : Severity) (st : St) : option log.Logger :=
  match handle s (this st) with
  | nil_ptr => None
  | addr a => log.heap (world st) !! a
  end.

(** States a caller of [nlog] can reach. *)
Definition reachable (st : St) : Prop :=
  exists lvl dest h0 n h1 os,
    New lvl dest h0 = ((Some n, None), h1) /\
    run os (mkMem n h1) = Ok (tt, st).

Definition with_level (lvl : Z) (st : St) : St :=
  mkMem (set_logLevel lvl (this st)) (world st).

(** [Errorln] is the one entry point whose guard does not compile. *)
Definition is_Errorln (o : Op) : bool :=
  match o with
  | OEmit SevError Line _ _ => true
  | _ => false
  end.

(** The rank of a severity, by the constants of [nlog]. *)
Definition rank (s : Severity) : Z :=
  match s with
  | SevEmerg => LOG_EMERG
  | SevAlert => LOG_ALERT
  | SevCrit => LOG_CRIT
  | SevError => LOG_ERROR
  | SevWarn => LOG_WARN
  | SevNotice => LOG_NOTICE
  | SevInfo => LOG_INFO
  | SevDebug => LOG_DEBUG
  end.

(** No operation of the sequence is a call of [Errorln]. *)
Definition no_Errorln (os : list Op) : bool :=
  forallb (fun o => negb (is_Errorln o)) os.

End NlogObs.

(** ** Facts about the monad and the standard logger *)

Lemma mem_eta {T} (st : Mem T) : mkMem (this st) (world st) = st.
Proof. by destruct st. Qed.

Lemma world_eta (h : log.World) : log.mkWorld (log.heap h) (log.written h) = h.
Proof. by destruct h. Qed.

Lemma Output_addr (a : nat) (c : log.call) (h : log.World) (l : log.Logger) :
  log.heap h !! a = Some l ->
  log.Output (addr a) c h
  = Ok (tt, log.mkWorld (log.heap h) (log.written h ++ [log.mkEntry l c])).
Proof. intros E. unfold log.Output, bind, log.deref. by rewrite E. Qed.

Lemma Output_grows (p : ptr) (c : log.call) (h h' : log.World) :
  log.Output p c h = Ok (tt, h') ->
  log.heap h' = log.heap h /\
  exists l, log.written h' = log.written h ++ [log.mkEntry l c].
Proof.
  unfold log.Output, bind, log.deref.
  destruct p as [|a]; [done|].
  destruct (log.heap h !! a) as [l|]; [|done].
  intros [= <-]. eauto.
Qed.

Lemma lookup_app_plus {A} (l1 l2 : list A) (i : nat) :
  (l1 ++ l2) !! (length l1 + i) = l2 !! i.
Proof. induction l1 as [|x l1 IH]; simpl; auto. Qed.

Lemma append_assoc (a b c : string) : (a +:+ b) +:+ c = a +:+ b +:+ c.
Proof.
  induction a as [|x a IH]; [reflexivity|].
  change (String x ((a +:+ b) +:+ c) = String x (a +:+ b +:+ c)).
  by rewrite IH.
Qed.

Lemma append_nil_l (a : string) : "" +:+ a = a.
Proof. reflexivity. Qed.

(** With date, time and message-prefix flags the header is the date, the
    time and then the prefix. *)
Lemma formatHeader_default (w : Writer) (p : string) (t : log.Stamp) :
  log.formatHeader
    (log.mkLogger w p (Z.lor (Z.lor log.Ldate log.Ltime) log.Lmsgprefix)) t
  = log.date t +:+ " " +:+ log.clock t +:+ " " +:+ p.
Proof.
  cbv [log.formatHeader log.flag log.prefix].
  change (Z.lor (Z.lor log.Ldate log.Ltime) log.Lmsgprefix) with 67%Z.
  replace (log.has 67 log.Lmsgprefix) with true by reflexivity.
  replace (log.has 67 (Z.lor (Z.lor log.Ldate log.Ltime) log.Lmicroseconds))
    with true by reflexivity.
  replace (log.has 67 log.Ldate) with true by reflexivity.
  replace (log.has 67 log.LUTC) with false by reflexivity.
  replace (log.has 67 (Z.lor log.Ltime log.Lmicroseconds))
    with true by reflexivity.
  replace (log.has 67 log.Lmicroseconds) with false by reflexivity.
  replace (log.has 67 (Z.lor log.Lshortfile log.Llongfile))
    with false by reflexivity.
  cbv iota. by rewrite !append_nil_l, !append_assoc.
Qed.

Lemma app_singleton_neq {A} (l : list A) (x : A) : l ++ [x] <> l.
Proof.
  intros E. apply (f_equal length) in E. rewrite length_app in E. simpl in E. lia.
Qed.

Lemma Output_changes (p : ptr) (c : log.call) (h : log.World) :
  log.Output p c h <> Ok (tt, h).
Proof.
  intros E. apply Output_grows in E as [_ [l E]].
  symmetry in E. by apply app_singleton_neq in E.
Qed.

(** ** Facts about [twigsnake] *)

(** A demo state is reached by [New] alone. *)
Ltac demo_reached lvl :=
  exists lvl, stdout, (log.mkWorld [] []), (demo_logger lvl), demo_world, [];
  split; reflexivity.

Section TwigsnakeFacts.
Import twigsnake.

Lemma checkLogLevel_in (lvl : Z) :
  (0 <= lvl <= 7)%Z -> checkLogLevel lvl = None.
Proof.
  intros H. unfold checkLogLevel.
  destruct (Z.geb_spec lvl 0), (Z.leb_spec lvl 7); simpl; (done || lia).
Qed.

Lemma checkLogLevel_out (lvl : Z) :
  ~ (0 <= lvl <= 7)%Z -> checkLogLevel lvl = Some InvalidSeverityError.
Proof.
  intros H. unfold checkLogLevel.
  destruct (Z.geb_spec lvl 0), (Z.leb_spec lvl 7); simpl; (done || lia).
Qed.

Lemma checkLogLevel_cases (lvl : Z) :
  ((0 <= lvl <= 7)%Z /\ checkLogLevel lvl = None) \/
  (~ (0 <= lvl <= 7)%Z /\ checkLogLevel lvl = Some InvalidSeverityError).
Proof.
  destruct (decide (0 <= lvl <= 7)%Z);
    [left | right]; auto using checkLogLevel_in, checkLogLevel_out.
Qed.

Lemma rank_range (s : Severity) : (0 <= rank s <= 7)%Z.
Proof. destruct s; cbv; split; discriminate. Qed.

Lemma passes_rank (s : Severity) (lvl : Z) :
  (0 <= lvl)%Z -> passes s lvl = (lvl >=? rank s)%Z.
Proof.
  intros H. destruct s; try reflexivity.
  simpl. symmetry. apply Z.geb_le. unfold LOG_EMERG. lia.
Qed.

(** Every emission method is its guard followed by the print. *)
Lemma emit_passes s k format v (st : St) :
  emit s k format v st
  = if passes s (logLevel (this st)) then printed s k format v st
    else Ok (tt, st).
Proof.
  destruct s, k;
    cbv [emit passes rank printed call_of handle bind self ret
         log.Print log.Printf log.Println
         Emerg Emergf Emergln Alert Alertf Alertln Crit Critf Critln
         Error Errorf Errorln Warn Warnf Warnln Notice Noticef Noticeln
         Info Infof Infoln Debug Debugf Debugln];
    try reflexivity; destruct (_ >=? _)%Z; reflexivity.
Qed.

Lemma printed_ok s k format v (st : St) (sub : log.Logger) :
  sublogger s st = Some sub ->
  printed s k format v st
  = Ok (tt, mkMem (this st)
                  (log.mkWorld (log.heap (world st))
                               (log.written (world st)
                                ++ [log.mkEntry sub (call_of k format v)]))).
Proof.
  unfold sublogger, printed, in_world.
  destruct (handle s (this st)) as [|a]; [done|].
  intros E. by rewrite (Output_addr _ _ _ _ E).
Qed.

Lemma printed_changes s k format v (st : St) :
  printed s k format v st <> Ok (tt, st).
Proof.
  destruct st as [l w]. unfold printed, in_world; simpl.
  destruct (log.Output _ _ _) as [[[] h]|] eqn:E; [|done].
  intros [= ->]. by apply Output_changes in E.
Qed.

Lemma wf_sublogger s (st : St) :
  wf st -> exists sub, sublogger s st = Some sub.
Proof.
  intros [_ (base & Hlen & Hh)]. unfold sublogger. rewrite Hh.
  apply lookup_lt_is_Some_2. destruct s; simpl; lia.
Qed.

Lemma wf_handles_distinct s s' (st : St) :
  wf st -> s <> s' -> handle s (this st) <> handle s' (this st).
Proof.
  intros [_ (base & _ & Hh)] Hne. rewrite !Hh. intros [= E].
  apply Hne. destruct s, s'; simpl in E; (reflexivity || lia).
Qed.

Lemma New_fails lvl dest h :
  ~ (0 <= lvl <= 7)%Z ->
  New lvl dest h = ((None, Some InvalidSeverityError), h).
Proof. intros H. unfold New. by rewrite checkLogLevel_out. Qed.

(** A successful [New], spelled out. *)
Lemma New_succeeds lvl dest h :
  (0 <= lvl <= 7)%Z ->
  let n := length (log.heap h) in
  New lvl dest h
  = ((Some (mkLogger lvl (addr n) (addr (n + 1)) (addr (n + 2))
                     (addr (n + 3)) (addr (n + 4)) (addr (n + 5))
                     (addr (n + 6)) (addr (n + 7))), None),
     log.mkWorld
       (log.heap h
        ++ [log.mkLogger dest "[EMERG] " default_flags;
            log.mkLogger dest "[ALERT] " default_flags;
            log.mkLogger dest "[CRIT] " default_flags;
            log.mkLogger dest "[ERROR] " default_flags;
            log.mkLogger dest "[WARN] " default_flags;
            log.mkLogger dest "[NOTICE] " default_flags;
            log.mkLogger dest "[INFO] " default_flags;
            log.mkLogger dest "[DEBUG] " default_flags])
       (log.written h)).
Proof.
  intros H n. unfold New. rewrite checkLogLevel_in by done.
  unfold log.New; simpl. rewrite !length_app; simpl.
  rewrite <- !app_assoc; simpl.
  subst n. rewrite <- !Nat.add_assoc. reflexivity.
Qed.

Lemma New_wf lvl dest h0 l h1 :
  New lvl dest h0 = ((Some l, None), h1) -> wf (mkMem l h1).
Proof.
  destruct (checkLogLevel_cases lvl) as [[Hin _]|[Hout _]].
  - rewrite New_succeeds by done. intros [= <- <-]. split; [done|].
    exists (length (log.heap h0)). split.
    + simpl. rewrite length_app. simpl. lia.
    + intros s. destruct s; simpl; f_equal; lia.
  - by rewrite New_fails.
Qed.

Lemma handle_set_logLevel s lvl (l : Logger) :
  handle s (set_logLevel lvl l) = handle s l.
Proof. by destruct s. Qed.

Lemma SetLogLevel_in lvl (st : St) :
  (0 <= lvl <= 7)%Z ->
  SetLogLevel lvl st
  = Ok (None, mkMem (set_logLevel lvl (this st)) (world st)).
Proof. intros H. unfold SetLogLevel. by rewrite checkLogLevel_in. Qed.

Lemma SetLogLevel_out lvl (st : St) :
  ~ (0 <= lvl <= 7)%Z ->
  SetLogLevel lvl st = Ok (Some InvalidSeverityError, st).
Proof. intros H. unfold SetLogLevel. by rewrite checkLogLevel_out. Qed.

(** What an emission does in a well-formed state. *)
Lemma emit_wf s k format v (st : St) :
  wf st ->
  exists sub,
    sublogger s st = Some sub /\
    emit s k format v st
    = Ok (tt, mkMem (this st)
                    (log.mkWorld
                       (log.heap (world st))
                       (log.written (world st)
                        ++ (if (logLevel (this st) >=? rank s)%Z
                            then [log.mkEntry sub (call_of k format v)]
                            else [])))).
Proof.
  intros Hwf. destruct (wf_sublogger s st Hwf) as [sub Hsub].
  exists sub. split; [done|].
  rewrite emit_passes, passes_rank by apply Hwf.
  destruct (_ >=? _)%Z.
  - by apply printed_ok.
  - by rewrite app_nil_r, world_eta, mem_eta.
Qed.

Lemma step_reconf o s a sub (st : St) :
  target o = Some s ->
  handle s (this st) = addr a ->
  log.heap (world st) !! a = Some sub ->
  step o st
  = Ok (tt, mkMem (this st)
                  (log.mkWorld (<[a := reconf o sub]> (log.heap (world st)))
                               (log.written (world st)))).
Proof.
  intros Ht Hh Hsub.
  destruct o; simpl in Ht; try discriminate; injection Ht as ->;
    cbv [step bind self in_world log.SetOutput log.SetPrefix log.SetFlags
         log.deref log.store reconf];
    rewrite Hh, Hsub; reflexivity.
Qed.

(** No operation faults in a well-formed state, and each keeps it so. *)
Lemma step_wf o (st : St) :
  wf st -> exists st', step o st = Ok (tt, st') /\ wf st'.
Proof.
  intros Hwf. destruct (target o) as [s|] eqn:Ht.
  - destruct Hwf as [Hlvl (base & Hlen & Hh)].
    destruct (lookup_lt_is_Some_2 (log.heap (world st)) (base + index s))
      as [sub Hsub]; [destruct s; simpl; lia|].
    rewrite (step_reconf o s _ sub st Ht (Hh s) Hsub).
    eexists; split; [done|]. split; [done|].
    exists base. simpl. by rewrite length_insert.
  - destruct o; try discriminate Ht.
    + exists st. by destruct st.
    + destruct (decide (0 <= lvl <= 7)%Z) as [Hin|Hout].
      * unfold step, bind. rewrite SetLogLevel_in by done.
        eexists; split; [done|]. split; [done|].
        destruct Hwf as [_ (base & Hlen & Hh)]. exists base.
        split; [done|]. intros s. simpl. by rewrite handle_set_logLevel.
      * unfold step, bind. rewrite SetLogLevel_out by done. by exists st.
    + simpl. destruct (emit_wf s k format v st Hwf) as (sub & _ & ->).
      eexists; split; [done|]. destruct Hwf as [Hlvl Hh]. by split.
Qed.

Lemma run_wf os (st : St) :
  wf st -> exists st', run os st = Ok (tt, st') /\ wf st'.
Proof.
  revert st. induction os as [|o os IH]; intros st Hwf.
  - by exists st.
  - destruct (step_wf o st Hwf) as (st1 & E1 & Hwf1).
    destruct (IH st1 Hwf1) as (st2 & E2 & Hwf2).
    exists st2. split; [|done]. simpl. unfold bind. by rewrite E1.
Qed.

Lemma reachable_wf (st : St) : reachable st -> wf st.
Proof.
  intros (lvl & dest & h0 & l & h1 & os & HN & HR).
  destruct (run_wf os _ (New_wf _ _ _ _ _ HN)) as (st' & E & Hwf).
  rewrite E in HR. by injection HR as <-.
Qed.

Lemma in_world_frame {A} (m : M log.World A) (a : A) (st st' : St) :
  in_world m st = Ok (a, st') ->
  this st' = this st /\ m (world st) = Ok (a, world st').
Proof.
  unfold in_world. destruct (m (world st)) as [[a' h]|]; [|done].
  by intros [= -> <-].
Qed.

Lemma printed_frame s k format v (st st' : St) :
  printed s k format v st = Ok (tt, st') ->
  this st' = this st /\ log.heap (world st') = log.heap (world st) /\
  one_more_line st st'.
Proof.
  intros E. apply in_world_frame in E as [Ht E].
  apply Output_grows in E as [Hh [l Hw]].
  repeat split; [done..|]. by exists (log.mkEntry l (call_of k format v)).
Qed.

Lemma not_one_more_line (st : St) : ~ one_more_line st st.
Proof. intros [e E]. symmetry in E. by apply app_singleton_neq in E. Qed.

(** Eight pointers to the end of the heap find what was appended. *)
Lemma sublogger_fresh s lvl (hp ls : list log.Logger) (wr : list log.entry) :
  let n := length hp in
  sublogger s (mkMem (mkLogger lvl (addr n) (addr (n + 1)) (addr (n + 2))
                               (addr (n + 3)) (addr (n + 4)) (addr (n + 5))
                               (addr (n + 6)) (addr (n + 7)))
                     (log.mkWorld (hp ++ ls) wr))
  = ls !! index s.
Proof.
  intros n. unfold sublogger. destruct s; simpl;
    [rewrite <- (Nat.add_0_r n) at 1|..]; apply lookup_app_plus.
Qed.

(** The emergency methods print whatever the level is. *)
Lemma Emerg_prints (st : St) (sub : log.Logger) (lvl : Z)
      (v : list Value) (format : string) :
  sublogger SevEmerg st = Some sub ->
  let st0 := with_level lvl st in
  Emerg v st0 = Ok (tt, add_line st0 (log.mkEntry sub (log.CPrint v))) /\
  Emergf format v st0
  = Ok (tt, add_line st0 (log.mkEntry sub (log.CPrintf format v))) /\
  Emergln v st0 = Ok (tt, add_line st0 (log.mkEntry sub (log.CPrintln v))).
Proof.
  intros Hsub st0.
  assert (H0 : sublogger SevEmerg st0 = Some sub) by exact Hsub.
  repeat split.
  - exact (printed_ok SevEmerg Plain format v st0 sub H0).
  - exact (printed_ok SevEmerg Formatted format v st0 sub H0).
  - exact (printed_ok SevEmerg Line format v st0 sub H0).
Qed.

Lemma with_level_same (st : St) : with_level (logLevel (this st)) st = st.
Proof. by destruct st as [[] w]. Qed.

Lemma emit_frame s k format v (st st' : St) :
  emit s k format v st = Ok (tt, st') ->
  this st' = this st /\ log.heap (world st') = log.heap (world st).
Proof.
  rewrite emit_passes. destruct (passes _ _).
  - intros E. apply printed_frame in E. tauto.
  - by intros [= <-].
Qed.

(** Scenarios A and B of the specification, by evaluation: at
    informational(6) an informational message is written under its prefix
    and a debug message is not; at debug(7) the debug message is written. *)
Example scenario_A :
  Info [VString "x"] (demo 6)
  = Ok (tt, add_line (demo 6)
                     (log.mkEntry (log.mkLogger stdout "[INFO] " 67)
                                  (log.CPrint [VString "x"]))) /\
  Debug [VString "y"] (demo 6) = Ok (tt, demo 6).
Proof. split; reflexivity. Qed.

Example scenario_B :
  Debug [VString "z"] (demo 7)
  = Ok (tt, add_line (demo 7)
                     (log.mkEntry (log.mkLogger stdout "[DEBUG] " 67)
                                  (log.CPrint [VString "z"]))).
Proof. reflexivity. Qed.

(** The 8 x 8 matrix of the specification, by evaluation. *)
Example matrix_8x8 : matrix_ok = true.
Proof. vm_compute. reflexivity. Qed.

End TwigsnakeFacts.

(** ** Facts about [nlog], by comparison with [twigsnake] *)

Section NlogFacts.

Lemma in_world_sim {A} (m : M log.World A) (st : twigsnake.St) :
  in_world m (nlog.of_St st) = nlog.of_res (in_world m st).
Proof.
  unfold in_world, nlog.of_St; simpl.
  by destruct (m (world st)) as [[a h]|].
Qed.

Lemma nlog_handle s (l : twigsnake.Logger) :
  nlog.handle s (nlog.of_Logger l) = twigsnake.handle s l.
Proof. by destruct s. Qed.

Lemma nlog_sublogger s (st : twigsnake.St) :
  NlogObs.sublogger s (nlog.of_St st) = sublogger s st.
Proof. unfold NlogObs.sublogger, sublogger. simpl. by rewrite nlog_handle. Qed.

(** The guard of [Errorln] names a field [NLog] does not have. *)
Lemma nlog_Errorln_faults (v : list Value) (st : nlog.St) :
  nlog.Errorln v st = Fault (NoField "loglLevel").
Proof. reflexivity. Qed.

(** Every other entry point is its guard followed by the print. *)
Lemma nlog_emit_passes s k format v (st : nlog.St) :
  NlogObs.is_Errorln (OEmit s k format v) = false ->
  nlog.emit s k format v st
  = if passes s (nlog.logLevel (this st))
    then in_world (log.Output (nlog.handle s (this st)) (call_of k format v)) st
    else Ok (tt, st).
Proof.
  destruct s, k; try discriminate; intros _;
    cbv [nlog.emit passes twigsnake.rank call_of nlog.handle bind self ret
         log.Print log.Printf log.Println
         nlog.Emerg nlog.Emergf nlog.Emergln
         nlog.Alert nlog.Alertf nlog.Alertln
         nlog.Crit nlog.Critf nlog.Critln
         nlog.Error nlog.Errorf
         nlog.Warn nlog.Warnf nlog.Warnln
         nlog.Notice nlog.Noticef nlog.Noticeln
         nlog.Info nlog.Infof nlog.Infoln
         nlog.Debug nlog.Debugf nlog.Debugln];
    try reflexivity;
    unfold nlog.LOG_ALERT, nlog.LOG_CRIT, nlog.LOG_ERROR, nlog.LOG_WARN,
      nlog.LOG_NOTICE, nlog.LOG_INFO, nlog.LOG_DEBUG,
      twigsnake.LOG_ALERT, twigsnake.LOG_CRIT, twigsnake.LOG_ERROR,
      twigsnake.LOG_WARN, twigsnake.LOG_NOTICE, twigsnake.LOG_INFO,
      twigsnake.LOG_DEBUG;
    destruct (_ >=? _)%Z; reflexivity.
Qed.

Lemma nlog_emit_sim s k format v (st : twigsnake.St) :
  NlogObs.is_Errorln (OEmit s k format v) = false ->
  nlog.emit s k format v (nlog.of_St st)
  = nlog.of_res (twigsnake.emit s k format v st).
Proof.
  intros H. rewrite nlog_emit_passes, emit_passes by done.
  simpl. destruct (passes _ _); [|done].
  rewrite nlog_handle. apply in_world_sim.
Qed.

Lemma nlog_New_sim lvl dest h :
  nlog.New lvl dest h
  = let '((l, e), h') := twigsnake.New lvl dest h in
    ((nlog.of_Logger <$> l, e), h').
Proof.
  unfold nlog.New, twigsnake.New.
  change (nlog.checkLogLevel lvl) with (twigsnake.checkLogLevel lvl).
  by destruct (twigsnake.checkLogLevel lvl).
Qed.

Lemma nlog_LogLevel_sim (st : twigsnake.St) :
  nlog.LogLevel (nlog.of_St st) = nlog.of_res (twigsnake.LogLevel st).
Proof. reflexivity. Qed.

Lemma nlog_SetLogLevel_sim lvl (st : twigsnake.St) :
  nlog.SetLogLevel lvl (nlog.of_St st)
  = nlog.of_res (twigsnake.SetLogLevel lvl st).
Proof.
  unfold nlog.SetLogLevel, twigsnake.SetLogLevel.
  change (nlog.checkLogLevel lvl) with (twigsnake.checkLogLevel lvl).
  by destruct (twigsnake.checkLogLevel lvl).
Qed.

(** Apart from [Errorln], the two packages take the same steps. *)
Lemma nlog_step_sim o (st : twigsnake.St) :
  NlogObs.is_Errorln o = false ->
  nlog.step o (nlog.of_St st) = nlog.of_res (twigsnake.step o st).
Proof.
  intros H. destruct o; simpl nlog.step; simpl twigsnake.step.
  - reflexivity.
  - unfold bind. rewrite nlog_SetLogLevel_sim.
    by destruct (twigsnake.SetLogLevel lvl st) as [[r st']|].
  - by apply nlog_emit_sim.
  - unfold bind, self. simpl. rewrite nlog_handle. apply in_world_sim.
  - unfold bind, self. simpl. rewrite nlog_handle. apply in_world_sim.
  - unfold bind, self. simpl. rewrite nlog_handle. apply in_world_sim.
Qed.

Lemma nlog_step_Errorln o (st : nlog.St) :
  NlogObs.is_Errorln o = true -> nlog.step o st = Fault (NoField "loglLevel").
Proof.
  destruct o as [| |s k format v| | |]; try discriminate.
  by destruct s, k.
Qed.

(** A run of [nlog] that completes is a run of [twigsnake]. *)
Lemma nlog_run_sim os (st : twigsnake.St) (st' : nlog.St) :
  wf st ->
  nlog.run os (nlog.of_St st) = Ok (tt, st') ->
  exists st1, st' = nlog.of_St st1 /\ wf st1.
Proof.
  revert st. induction os as [|o os IH]; intros st Hwf.
  - intros [= <-]. by exists st.
  - simpl. unfold bind.
    destruct (NlogObs.is_Errorln o) eqn:Ho.
    + by rewrite nlog_step_Errorln.
    + rewrite nlog_step_sim by done.
      destruct (step_wf o st Hwf) as (st1 & -> & Hwf1). simpl.
      by apply IH.
Qed.

Lemma nlog_reachable_wf (st : nlog.St) :
  NlogObs.reachable st -> exists st1, st = nlog.of_St st1 /\ wf st1.
Proof.
  intros (lvl & dest & h0 & n & h1 & os & HN & HR).
  rewrite nlog_New_sim in HN.
  destruct (twigsnake.New lvl dest h0) as [[[l|] e] h'] eqn:E;
    simpl in HN; [|done].
  injection HN as <- -> <-.
  apply (nlog_run_sim os (mkMem l h')); [|exact HR].
  by apply (New_wf lvl dest h0).
Qed.

End NlogFacts.

(** ** The interface of [twigsnake.Logger] *)

Section TwigsnakeClaims.
Import twigsnake.

(** C1. In a state reached from a successful [New], where the level [T]
    held by the logger is a valid severity, an emission at severity [S]
    by any of the three variants returns, and it hands the operands to
    the print primitive of the logger of [S] (one more line is written,
    under that logger's configuration) if and only if [T >= S];
    otherwise nothing changes. *)
Theorem emission_iff_threshold
        (st : St) (s : Severity) (k : Variant) (format : string)
        (v : list Value) :
  reachable st ->
  (0 <= logLevel (this st) <= 7)%Z /\ (0 <= rank s <= 7)%Z /\
  exists st',
    emit s k format v st = Ok (tt, st') /\
    (one_more_line st st' <-> (logLevel (this st) >= rank s)%Z) /\
    ((logLevel (this st) >= rank s)%Z ->
     emit s k format v st = printed s k format v st /\
     exists sub,
       sublogger s st = Some sub /\
       log.written (world st')
       = log.written (world st) ++ [log.mkEntry sub (call_of k format v)]) /\
    (~ (logLevel (this st) >= rank s)%Z -> st' = st).
Proof.
  intros Hr. pose proof (reachable_wf st Hr) as Hwf.
  split; [apply Hwf|]. split; [apply rank_range|].
  destruct (emit_wf s k format v st Hwf) as (sub & Hsub & E).
  pose proof (emit_passes s k format v st) as Hp.
  rewrite passes_rank in Hp by apply Hwf.
  destruct (Z.geb_spec (logLevel (this st)) (rank s)) as [Hge|Hlt].
  - eexists; split; [exact E|]. split; [|split].
    + split; [lia|]. intros _. by eexists.
    + intros _. split; [congruence|]. by exists sub.
    + lia.
  - eexists; split; [exact E|].
    rewrite app_nil_r, world_eta, mem_eta. split; [|split].
    + split; [|lia]. intros H. by apply not_one_more_line in H.
    + lia.
    + done.
Qed.

(** Scenario C of the specification: at threshold error(3) a warning is
    suppressed and an error is written. *)
Lemma emission_iff_threshold_witness :
  reachable (demo 3) /\
  Warn [VString "w"] (demo 3) = Ok (tt, demo 3) /\
  exists st', Error [VString "e"] (demo 3) = Ok (tt, st') /\
              one_more_line (demo 3) st'.
Proof.
  assert (R : reachable (demo 3)) by demo_reached 3%Z.
  split; [exact R|]. split.
  - destruct (emission_iff_threshold (demo 3) SevWarn Plain "" [VString "w"] R)
      as (_ & _ & st' & E & _ & _ & Hno).
    simpl in E. rewrite E. do 2 f_equal. apply Hno. vm_compute. by intros H.
  - destruct (emission_iff_threshold (demo 3) SevError Plain "" [VString "e"] R)
      as (_ & _ & st' & E & Hiff & _).
    exists st'. split; [exact E|]. apply Hiff. vm_compute. discriminate.
Defined.

(** C2. [SetLogLevel] always returns; it returns the invalid-severity
    error exactly when the level lies outside [0,7], and nil otherwise.
    On failure the state is the one before the call, so [LogLevel] still
    returns the prior level.  On success only the level changes, [LogLevel]
    returns the new one, and the next emission at any severity is decided
    by the new level: it prints when the level is at least the severity's
    rank and does nothing when it is below. *)
Theorem SetLogLevel_validates (st : St) (lvl : Z) :
  exists r st',
    SetLogLevel lvl st = Ok (r, st') /\
    (r = Some InvalidSeverityError <-> ~ (0 <= lvl <= 7)%Z) /\
    (r = None <-> (0 <= lvl <= 7)%Z) /\
    (~ (0 <= lvl <= 7)%Z ->
     st' = st /\ LogLevel st' = Ok (logLevel (this st), st')) /\
    ((0 <= lvl <= 7)%Z ->
     LogLevel st' = Ok (lvl, st') /\
     world st' = world st /\
     (forall s, handle s (this st') = handle s (this st)) /\
     forall s k format v,
       ((lvl >= rank s)%Z ->
        emit s k format v st' = printed s k format v st') /\
       ((lvl < rank s)%Z -> emit s k format v st' = Ok (tt, st'))).
Proof.
  destruct (decide (0 <= lvl <= 7)%Z) as [Hin|Hout].
  - exists None, (mkMem (set_logLevel lvl (this st)) (world st)).
    split; [by apply SetLogLevel_in|].
    split; [split; [done|tauto]|]. split; [tauto|]. split; [tauto|].
    intros _. split; [done|]. split; [done|].
    split; [intros s; apply handle_set_logLevel|].
    intros s k format v. rewrite emit_passes. simpl.
    rewrite passes_rank by lia.
    split; intros H.
    + by destruct (Z.geb_spec lvl (rank s)); [|lia].
    + by destruct (Z.geb_spec lvl (rank s)); [lia|].
  - exists (Some InvalidSeverityError), st.
    split; [by apply SetLogLevel_out|].
    split; [tauto|]. split; [split; [done|tauto]|]. split; [|tauto].
    intros _. done.
Qed.

(** Scenario D of the specification: [SetLogLevel 9] is refused, the
    level stays at 3 and a debug message is still suppressed. *)
Lemma SetLogLevel_validates_witness :
  exists st',
    SetLogLevel 9 (demo 3) = Ok (Some InvalidSeverityError, st') /\
    LogLevel st' = Ok (3%Z, st') /\
    Debug [VString "d"] st' = Ok (tt, st').
Proof.
  destruct (SetLogLevel_validates (demo 3) 9)
    as (r & st' & E & Hr & _ & Hout & _).
  assert (H9 : ~ (0 <= 9 <= 7)%Z) by lia.
  destruct (Hout H9) as [-> HL].
  exists (demo 3). apply Hr in H9 as ->. by repeat split.
Defined.

(** C3. [New] returns the invalid-severity error, no logger and an
    untouched world exactly when the level lies outside [0,7]; for a
    level inside it returns a logger and no error, and [LogLevel] on the
    fresh logger returns the level the caller supplied. *)
Theorem New_validates (lvl : Z) (dest : Writer) (h : log.World) :
  (New lvl dest h = ((None, Some InvalidSeverityError), h)
   <-> ~ (0 <= lvl <= 7)%Z) /\
  ((exists e h', New lvl dest h = ((None, e), h')) <-> ~ (0 <= lvl <= 7)%Z) /\
  ((exists l e h', New lvl dest h = ((l, Some e), h'))
   <-> ~ (0 <= lvl <= 7)%Z) /\
  ((0 <= lvl <= 7)%Z ->
   exists l h',
     New lvl dest h = ((Some l, None), h') /\
     logLevel l = lvl /\
     LogLevel (mkMem l h') = Ok (lvl, mkMem l h')).
Proof.
  destruct (decide (0 <= lvl <= 7)%Z) as [Hin|Hout].
  - pose proof (New_succeeds lvl dest h Hin) as E. simpl in E.
    split; [|split; [|split]].
    + rewrite E. split; [discriminate|tauto].
    + rewrite E. split; [|tauto]. by intros (e & h' & [=]).
    + rewrite E. split; [|tauto]. by intros (l & e & h' & [=]).
    + intros _. rewrite E. by do 2 eexists.
  - pose proof (New_fails lvl dest h Hout) as E.
    split; [|split; [|split]]; [tauto| | |tauto].
    + split; [tauto|]. intros _. rewrite E. by do 2 eexists.
    + split; [tauto|]. intros _. rewrite E. by do 3 eexists.
Qed.

(** [New] at informational(6) succeeds and the fresh logger reports 6. *)
Lemma New_validates_witness :
  exists l h',
    New 6 stdout (log.mkWorld [] []) = ((Some l, None), h') /\
    LogLevel (mkMem l h') = Ok (6%Z, mkMem l h').
Proof.
  destruct (New_validates 6 stdout (log.mkWorld [] [])) as (_ & _ & _ & H).
  destruct H as (l & h' & E & _ & HL); [lia|].
  by exists l, h'.
Defined.

(** C7. Calling [SetLogLevel] twice in a row with the same level returns
    what one call returns and leaves the state one call leaves: level,
    fields and standard loggers alike.  This holds for every level,
    valid or not. *)
Theorem SetLogLevel_idempotent (st : St) (T : Z) :
  (let* _ := SetLogLevel T in SetLogLevel T) st = SetLogLevel T st /\
  exists r st1,
    SetLogLevel T st = Ok (r, st1) /\ SetLogLevel T st1 = Ok (r, st1).
Proof.
  unfold bind.
  destruct (decide (0 <= T <= 7)%Z) as [Hin|Hout].
  - rewrite (SetLogLevel_in T st Hin). rewrite SetLogLevel_in by done.
    split; [done|]. do 2 eexists. split; [done|].
    by rewrite SetLogLevel_in.
  - rewrite (SetLogLevel_out T st Hout). rewrite SetLogLevel_out by done.
    split; [done|]. do 2 eexists. split; [done|].
    by rewrite SetLogLevel_out.
Qed.

(** C10. From a successful [New], every finite sequence of operations
    (emissions, [LogLevel], [SetLogLevel] accepted or refused, and
    reconfigurations of the standard loggers) runs to completion and
    ends in a state whose level lies in [0,7]. *)
Theorem level_always_valid
        (lvl : Z) (dest : Writer) (h0 h1 : log.World) (l : Logger)
        (os : list Op) :
  New lvl dest h0 = ((Some l, None), h1) ->
  exists st,
    run os (mkMem l h1) = Ok (tt, st) /\
    (0 <= logLevel (this st) <= 7)%Z.
Proof.
  intros HN.
  destruct (run_wf os _ (New_wf _ _ _ _ _ HN)) as (st & E & Hwf).
  exists st. split; [done|]. apply Hwf.
Qed.

Lemma level_always_valid_witness :
  New 3 stdout (log.mkWorld [] []) = ((Some (demo_logger 3), None), demo_world) /\
  exists st,
    run [OSetLogLevel 9; OEmit SevDebug Line "" [VString "d"];
         OSetLogLevel (-1); OLogLevel; OSetLogLevel 7;
         OSetPrefix SevDebug ""; OEmit SevDebug Formatted "%d" [VInt 1]]
        (demo 3)
    = Ok (tt, st) /\
    (0 <= logLevel (this st) <= 7)%Z.
Proof.
  split; [reflexivity|].
  apply (level_always_valid 3 stdout (log.mkWorld [] []) demo_world).
  reflexivity.
Defined.

(** C6. A successful [New] writes nothing and leaves the loggers that
    already exist alone; each of the eight fields then points to a
    standard logger bound to the one destination supplied, with the
    bracketed prefix of its severity, trailing space included, and the
    flags [Ldate|Ltime|Lmsgprefix], under which the header of a line is
    the date, the time and then the prefix. *)
Theorem New_configures_subloggers (lvl : Z) (dest : Writer) (h : log.World) :
  (0 <= lvl <= 7)%Z ->
  let flags := Z.lor (Z.lor log.Ldate log.Ltime) log.Lmsgprefix in
  exists l h',
    New lvl dest h = ((Some l, None), h') /\
    log.written h' = log.written h /\
    (forall a, a < length (log.heap h) ->
               log.heap h' !! a = log.heap h !! a) /\
    sublogger SevEmerg (mkMem l h') = Some (log.mkLogger dest "[EMERG] " flags) /\
    sublogger SevAlert (mkMem l h') = Some (log.mkLogger dest "[ALERT] " flags) /\
    sublogger SevCrit (mkMem l h') = Some (log.mkLogger dest "[CRIT] " flags) /\
    sublogger SevError (mkMem l h') = Some (log.mkLogger dest "[ERROR] " flags) /\
    sublogger SevWarn (mkMem l h') = Some (log.mkLogger dest "[WARN] " flags) /\
    sublogger SevNotice (mkMem l h') = Some (log.mkLogger dest "[NOTICE] " flags) /\
    sublogger SevInfo (mkMem l h') = Some (log.mkLogger dest "[INFO] " flags) /\
    sublogger SevDebug (mkMem l h') = Some (log.mkLogger dest "[DEBUG] " flags) /\
    forall s sub t,
      sublogger s (mkMem l h') = Some sub ->
      log.out sub = dest /\
      log.flag sub = flags /\
      log.formatHeader sub t
      = log.date t +:+ " " +:+ log.clock t +:+ " " +:+ log.prefix sub.
Proof.
  intros Hin flags.
  pose proof (New_succeeds lvl dest h Hin) as E. simpl in E.
  do 2 eexists. split; [exact E|]. split; [done|].
  split; [intros a Ha; simpl; by rewrite lookup_app_l|].
  do 8 (split; [by rewrite sublogger_fresh|]).
  intros s sub t. rewrite sublogger_fresh.
  destruct s; simpl; intros [= <-]; (split; [done|]); (split; [done|]);
    apply formatHeader_default.
Qed.

Lemma New_configures_subloggers_witness :
  exists l h',
    New 6 stdout (log.mkWorld [] []) = ((Some l, None), h') /\
    sublogger SevInfo (mkMem l h')
    = Some (log.mkLogger stdout "[INFO] " 67).
Proof.
  destruct (New_configures_subloggers 6 stdout (log.mkWorld [] []))
    as (l & h' & E & _ & _ & _ & _ & _ & _ & _ & _ & HI & _); [lia|].
  by exists l, h'.
Defined.

(** C8. In a state reached from a successful [New], the fields of two
    different severities hold different pointers.  Setting the output,
    prefix or flags of the logger of one severity returns, takes effect
    on that logger, and changes neither the facade nor the lines written
    nor the logger of any other severity; an emission at another
    severity, by any variant, writes after the change exactly what it
    writes without it. *)
Theorem reconfigure_isolated
        (st : St) (o : Op) (s s' : Severity) (k : Variant)
        (format : string) (v : list Value) :
  reachable st -> target o = Some s -> s' <> s ->
  handle s' (this st) <> handle s (this st) /\
  exists sub st1,
    sublogger s st = Some sub /\
    step o st = Ok (tt, st1) /\
    sublogger s st1 = Some (reconf o sub) /\
    this st1 = this st /\
    log.written (world st1) = log.written (world st) /\
    sublogger s' st1 = sublogger s' st /\
    exists st2 st2',
      emit s' k format v st = Ok (tt, st2) /\
      emit s' k format v st1 = Ok (tt, st2') /\
      log.written (world st2') = log.written (world st2).
Proof.
  intros Hr Ht Hne. pose proof (reachable_wf st Hr) as Hwf.
  split; [by apply wf_handles_distinct|].
  destruct (wf_sublogger s st Hwf) as [sub Hsub]. exists sub.
  destruct (step_wf o st Hwf) as (st1 & E1 & Hwf1). exists st1.
  pose proof (wf_handles_distinct s' s st Hwf Hne) as Hd.
  unfold sublogger in Hsub, Hd.
  destruct (handle s (this st)) as [|a] eqn:Ha; [done|].
  rewrite (step_reconf o s a sub st Ht Ha Hsub) in E1.
  injection E1 as <-.
  assert (Hs' : sublogger s' (mkMem (this st)
                  (log.mkWorld (<[a:=reconf o sub]> (log.heap (world st)))
                               (log.written (world st))))
                = sublogger s' st).
  { unfold sublogger; simpl. destruct (handle s' (this st)) as [|a']; [done|].
    apply list_lookup_insert_ne. congruence. }
  split; [by unfold sublogger; rewrite Ha|].
  split; [by apply (step_reconf o s a sub)|].
  split.
  { unfold sublogger; simpl. rewrite Ha.
    apply list_lookup_insert_eq. by eapply lookup_lt_Some. }
  split; [done|]. split; [done|]. split; [done|].
  destruct (emit_wf s' k format v st Hwf) as (sub' & Hsub' & E2).
  destruct (emit_wf s' k format v _ Hwf1) as (sub1 & Hsub1 & E3).
  do 2 eexists. split; [exact E2|]. split; [exact E3|].
  simpl. rewrite Hs', Hsub' in Hsub1. by injection Hsub1 as ->.
Qed.

(** The advanced example of the package documentation: after the debug
    logger is sent to a file, an informational message still goes to the
    console under its own prefix. *)
Lemma reconfigure_isolated_witness :
  reachable (demo 7) /\
  exists st1,
    step (OSetOutput SevDebug "debug.log") (demo 7) = Ok (tt, st1) /\
    sublogger SevDebug st1
    = Some (log.mkLogger "debug.log" "[DEBUG] " default_flags) /\
    sublogger SevInfo st1
    = Some (log.mkLogger stdout "[INFO] " default_flags).
Proof.
  assert (R : reachable (demo 7)) by demo_reached 7%Z.
  split; [exact R|].
  destruct (reconfigure_isolated (demo 7) (OSetOutput SevDebug "debug.log")
              SevDebug SevInfo Line "" [VString "Regular message"] R)
    as (_ & sub & st1 & Hsub & E & Hnew & _ & _ & Hother & _);
    [reflexivity|discriminate|].
  exists st1. split; [exact E|].
  rewrite Hnew, Hother. injection Hsub as <-. by split.
Defined.

(** C9. [LogLevel] returns the level and leaves the state as it is.  An
    emission that returns leaves the level, the eight fields and every
    standard logger as they were, and in a state reached from a
    successful [New] every emission returns.  No operation changes a
    field, and the only operation after which the level differs is a
    [SetLogLevel] with a level in [0,7]. *)
Theorem level_changes_only_by_SetLogLevel (st : St) :
  LogLevel st = Ok (logLevel (this st), st) /\
  (forall s k format v st',
      emit s k format v st = Ok (tt, st') ->
      this st' = this st /\ log.heap (world st') = log.heap (world st)) /\
  (reachable st ->
   forall s k format v, exists st', emit s k format v st = Ok (tt, st')) /\
  (forall o st',
      step o st = Ok (tt, st') ->
      (forall s, handle s (this st') = handle s (this st)) /\
      (logLevel (this st') <> logLevel (this st) ->
       exists lvl,
         o = OSetLogLevel lvl /\ (0 <= lvl <= 7)%Z /\
         logLevel (this st') = lvl)).
Proof.
  split; [reflexivity|].
  split; [intros s k format v st'; apply emit_frame|]. split.
  - intros Hr s k format v.
    destruct (emit_wf s k format v st (reachable_wf st Hr)) as (sub & _ & E).
    eauto.
  - intros o st' E. destruct o; simpl in E.
    + injection E as <-. by split.
    + unfold bind in E.
      destruct (decide (0 <= lvl <= 7)%Z) as [Hin|Hout].
      * rewrite SetLogLevel_in in E by done. injection E as <-.
        split; [intros s; apply handle_set_logLevel|]. intros _. by exists lvl.
      * rewrite SetLogLevel_out in E by done. injection E as <-. by split.
    + apply emit_frame in E as [-> _]. by split.
    + apply in_world_frame in E as [-> _]. by split.
    + apply in_world_frame in E as [-> _]. by split.
    + apply in_world_frame in E as [-> _]. by split.
Qed.

Lemma level_changes_only_by_SetLogLevel_witness :
  reachable (demo 6) /\
  LogLevel (demo 6) = Ok (6%Z, demo 6) /\
  exists st',
    Infoln [VString "This is informational message"] (demo 6) = Ok (tt, st') /\
    this st' = demo_logger 6.
Proof.
  assert (R : reachable (demo 6)) by demo_reached 6%Z.
  destruct (level_changes_only_by_SetLogLevel (demo 6))
    as (HL & Hframe & Hret & _).
  split; [exact R|]. split; [exact HL|].
  destruct (Hret R SevInfo Line "" [VString "This is informational message"])
    as [st' E].
  exists st'. split; [exact E|]. by apply Hframe in E as [-> _].
Defined.

End TwigsnakeClaims.

(** ** Both packages *)

Section BothPackages.

(** C4. In every state reached from a successful [New], in either
    package, the field of the emergency severity points to a standard
    logger, and [Emerg], [Emergf] and [Emergln] each return having
    written exactly one more line under it, whatever the level: the
    same holds with the level overwritten by any integer. *)
Theorem Emerg_always_prints :
  (forall (st : twigsnake.St) (v : list Value) (format : string),
      reachable st ->
      with_level (twigsnake.logLevel (this st)) st = st /\
      exists sub,
        sublogger SevEmerg st = Some sub /\
        forall lvl,
          let st0 := with_level lvl st in
          twigsnake.Emerg v st0
          = Ok (tt, add_line st0 (log.mkEntry sub (log.CPrint v))) /\
          twigsnake.Emergf format v st0
          = Ok (tt, add_line st0 (log.mkEntry sub (log.CPrintf format v))) /\
          twigsnake.Emergln v st0
          = Ok (tt, add_line st0 (log.mkEntry sub (log.CPrintln v)))) /\
  (forall (st : nlog.St) (v : list Value) (format : string),
      NlogObs.reachable st ->
      NlogObs.with_level (nlog.logLevel (this st)) st = st /\
      exists sub,
        NlogObs.sublogger SevEmerg st = Some sub /\
        forall lvl,
          let st0 := NlogObs.with_level lvl st in
          nlog.Emerg v st0
          = Ok (tt, add_line st0 (log.mkEntry sub (log.CPrint v))) /\
          nlog.Emergf format v st0
          = Ok (tt, add_line st0 (log.mkEntry sub (log.CPrintf format v))) /\
          nlog.Emergln v st0
          = Ok (tt, add_line st0 (log.mkEntry sub (log.CPrintln v)))).
Proof.
  split.
  - intros st v format Hr. split; [apply with_level_same|].
    destruct (wf_sublogger SevEmerg st (reachable_wf st Hr)) as [sub Hsub].
    exists sub. split; [done|]. intros lvl. by apply Emerg_prints.
  - intros st v format Hr.
    destruct (nlog_reachable_wf st Hr) as (st1 & -> & Hwf).
    split; [by destruct st1 as [[] w]|].
    destruct (wf_sublogger SevEmerg st1 Hwf) as [sub Hsub].
    exists sub. split; [by rewrite nlog_sublogger|]. intros lvl st0.
    destruct (Emerg_prints st1 sub lvl v format Hsub) as (E1 & E2 & E3).
    change st0 with (nlog.of_St (with_level lvl st1)).
    repeat split.
    + change (nlog.Emerg v) with (nlog.emit SevEmerg Plain format v).
      rewrite nlog_emit_sim by done. simpl twigsnake.emit. by rewrite E1.
    + change (nlog.Emergf format v)
        with (nlog.emit SevEmerg Formatted format v).
      rewrite nlog_emit_sim by done. simpl twigsnake.emit. by rewrite E2.
    + change (nlog.Emergln v) with (nlog.emit SevEmerg Line format v).
      rewrite nlog_emit_sim by done. simpl twigsnake.emit. by rewrite E3.
Qed.

(** Scenario C of the specification, last step: at threshold error(3)
    an emergency message is written. *)
Lemma Emerg_always_prints_witness :
  reachable (demo 3) /\
  twigsnake.Emerg [VString "m"] (demo 3)
  = Ok (tt, add_line (demo 3)
                     (log.mkEntry (log.mkLogger stdout "[EMERG] " 67)
                                  (log.CPrint [VString "m"]))).
Proof.
  assert (R : reachable (demo 3)) by demo_reached 3%Z.
  split; [exact R|].
  destruct Emerg_always_prints as [H _].
  destruct (H (demo 3) [VString "m"] "" R) as (_ & sub & Hsub & Hp).
  injection Hsub as <-. apply (Hp 3%Z).
Defined.

(** C5, at the input where the two packages part: both constructors
    build the same logger at level error(3), [twigsnake]'s [Errorln]
    then writes a line under the error prefix, and [nlog]'s [Errorln]
    does not run at all, its guard reading a field [NLog] lacks. *)
Theorem nlog_Errorln_diverges :
  twigsnake.New 3 stdout (log.mkWorld [] [])
  = ((Some (demo_logger 3), None), demo_world) /\
  nlog.New 3 stdout (log.mkWorld [] [])
  = ((Some (nlog.of_Logger (demo_logger 3)), None), demo_world) /\
  twigsnake.Errorln [VString "e"] (demo 3)
  = Ok (tt, add_line (demo 3)
                     (log.mkEntry (log.mkLogger stdout "[ERROR] " 67)
                                  (log.CPrintln [VString "e"]))) /\
  nlog.Errorln [VString "e"] (nlog.of_St (demo 3))
  = Fault (NoField "loglLevel").
Proof. repeat split. Qed.

End BothPackages.

(** ** More about [twigsnake]: what the operations touch *)

Section TwigsnakeEffects.
Import twigsnake.

(** A reconfiguration that returns has overwritten one standard logger,
    the one its severity's field points to. *)
Lemma reconf_inv o s (st st' : St) :
  target o = Some s ->
  step o st = Ok (tt, st') ->
  exists a sub,
    handle s (this st) = addr a /\
    log.heap (world st) !! a = Some sub /\
    st' = mkMem (this st)
                (log.mkWorld (<[a := reconf o sub]> (log.heap (world st)))
                             (log.written (world st))).
Proof.
  intros Ht E.
  destruct (handle s (this st)) as [|a] eqn:Ha.
  - destruct o; simpl in Ht; try discriminate; injection Ht as ->;
      revert E;
      cbv [step bind self in_world log.SetOutput log.SetPrefix log.SetFlags
           log.deref log.store];
      by rewrite Ha.
  - destruct (log.heap (world st) !! a) as [sub|] eqn:Hsub.
    + rewrite (step_reconf o s a sub st Ht Ha Hsub) in E.
      injection E as <-. by exists a, sub.
    + destruct o; simpl in Ht; try discriminate; injection Ht as ->;
        revert E;
        cbv [step bind self in_world log.SetOutput log.SetPrefix log.SetFlags
             log.deref log.store];
        by rewrite Ha, Hsub.
Qed.

Lemma step_handles o (st st' : St) :
  step o st = Ok (tt, st') ->
  forall s, handle s (this st') = handle s (this st).
Proof.
  intros E. destruct o; simpl in E.
  - by injection E as <-.
  - unfold bind in E. destruct (decide (0 <= lvl <= 7)%Z) as [Hin|Hout].
    + rewrite SetLogLevel_in in E by done. injection E as <-.
      intros s. apply handle_set_logLevel.
    + rewrite SetLogLevel_out in E by done. by injection E as <-.
  - by apply emit_frame in E as [-> _].
  - by apply in_world_frame in E as [-> _].
  - by apply in_world_frame in E as [-> _].
  - by apply in_world_frame in E as [-> _].
Qed.

Lemma step_heap o (st st' : St) :
  step o st = Ok (tt, st') ->
  length (log.heap (world st')) = length (log.heap (world st)) /\
  forall a, (forall s, handle s (this st) <> addr a) ->
            log.heap (world st') !! a = log.heap (world st) !! a.
Proof.
  intros E. destruct (target o) as [s|] eqn:Ht.
  - destruct (reconf_inv o s st st' Ht E) as (a & sub & Ha & Hsub & ->).
    simpl. split; [apply length_insert|].
    intros a' Hf. apply list_lookup_insert_ne. intros <-. by apply (Hf s).
  - destruct o; try discriminate Ht; simpl in E.
    + by injection E as <-.
    + unfold bind in E. destruct (decide (0 <= lvl <= 7)%Z) as [Hin|Hout].
      * rewrite SetLogLevel_in in E by done. by injection E as <-.
      * rewrite SetLogLevel_out in E by done. by injection E as <-.
    + apply emit_frame in E as [_ ->]. by split.
Qed.

Lemma step_written o (st st' : St) :
  step o st = Ok (tt, st') ->
  exists new,
    log.written (world st') = log.written (world st) ++ new /\
    length new <= emissions [o].
Proof.
  intros E. destruct (target o) as [s|] eqn:Ht.
  - destruct (reconf_inv o s st st' Ht E) as (a & sub & Ha & Hsub & ->).
    exists []. simpl. rewrite app_nil_r. split; [done|lia].
  - destruct o; try discriminate Ht; simpl in E.
    + injection E as <-. exists []. rewrite app_nil_r. simpl. split; [done|lia].
    + exists []. rewrite app_nil_r. simpl. split; [|lia].
      unfold bind in E. destruct (decide (0 <= lvl <= 7)%Z) as [Hin|Hout].
      * rewrite SetLogLevel_in in E by done. by injection E as <-.
      * rewrite SetLogLevel_out in E by done. by injection E as <-.
    + rewrite emit_passes in E. destruct (passes _ _).
      * apply printed_frame in E as (_ & _ & [e He]).
        exists [e]. simpl. split; [done|lia].
      * injection E as <-. exists []. rewrite app_nil_r. simpl. split; [done|lia].
Qed.

Lemma emissions_cons o os : emissions (o :: os) = emissions [o] + emissions os.
Proof. by destruct o. Qed.

Lemma run_cons_inv o os (st st' : St) :
  run (o :: os) st = Ok (tt, st') ->
  exists st1, step o st = Ok (tt, st1) /\ run os st1 = Ok (tt, st').
Proof.
  simpl. unfold bind. destruct (step o st) as [[[] st1]|]; [|done].
  intros E. by exists st1.
Qed.

(** What a run that completes has done, all in one. *)
Lemma run_effect os (st st' : St) :
  run os st = Ok (tt, st') ->
  (forall s, handle s (this st') = handle s (this st)) /\
  length (log.heap (world st')) = length (log.heap (world st)) /\
  (forall a, (forall s, handle s (this st) <> addr a) ->
             log.heap (world st') !! a = log.heap (world st) !! a) /\
  exists new,
    log.written (world st') = log.written (world st) ++ new /\
    length new <= emissions os.
Proof.
  revert st. induction os as [|o os IH]; intros st E.
  - injection E as <-. repeat split; try done.
    exists []. rewrite app_nil_r. by split.
  - apply run_cons_inv in E as (st1 & E1 & E2).
    destruct (IH st1 E2) as (Hh & Hl & Hf & new2 & Hw2 & Hn2).
    pose proof (step_handles o st st1 E1) as Hh1.
    destruct (step_heap o st st1 E1) as [Hl1 Hf1].
    destruct (step_written o st st1 E1) as (new1 & Hw1 & Hn1).
    split; [intros s; by rewrite Hh, Hh1|].
    split; [by rewrite Hl, Hl1|].
    split.
    + intros a Ha. rewrite Hf; [by apply Hf1|].
      intros s. rewrite Hh1. apply Ha.
    + exists (new1 ++ new2). rewrite Hw2, Hw1, app_assoc. split; [done|].
      rewrite length_app, emissions_cons. lia.
Qed.

(** An emission in a well-formed state, with its result as a state. *)
Lemma emit_result s k format v (st : St) :
  wf st ->
  exists sub,
    sublogger s st = Some sub /\
    emit s k format v st
    = Ok (tt, if (logLevel (this st) >=? rank s)%Z
              then add_line st (log.mkEntry sub (call_of k format v))
              else st).
Proof.
  intros Hwf. destruct (emit_wf s k format v st Hwf) as (sub & Hsub & E).
  exists sub. split; [done|]. rewrite E.
  destruct (_ >=? _)%Z; [done|].
  by rewrite app_nil_r, world_eta, mem_eta.
Qed.

Lemma add_line_one_more (st : St) (e : log.entry) :
  one_more_line st (add_line st e).
Proof. by exists e. Qed.

Lemma emit_writes_iff s k format v (st : St) :
  wf st ->
  exists st',
    emit s k format v st = Ok (tt, st') /\
    (one_more_line st st' <-> (rank s <= logLevel (this st))%Z).
Proof.
  intros Hwf. destruct (emit_result s k format v st Hwf) as (sub & _ & E).
  rewrite E. eexists; split; [done|].
  destruct (Z.geb_spec (logLevel (this st)) (rank s)) as [Hge|Hlt].
  - split; [lia|]. intros _. apply add_line_one_more.
  - split; [|lia]. intros H. by apply not_one_more_line in H.
Qed.

Lemma wf_with_level lvl (st : St) :
  (0 <= lvl <= 7)%Z -> wf st -> wf (with_level lvl st).
Proof.
  intros Hl [_ (base & Hlen & Hh)]. split; [done|].
  exists base. split; [done|]. intros s. simpl.
  by rewrite handle_set_logLevel.
Qed.

Lemma Severity_dec (s s' : Severity) : {s = s'} + {s <> s'}.
Proof. decide equality. Qed.

Lemma reconf_commute o1 o2 (l : log.Logger) :
  attr o1 <> attr o2 -> reconf o1 (reconf o2 l) = reconf o2 (reconf o1 l).
Proof. destruct o1, o2; simpl; (done || by intros _). Qed.

End TwigsnakeEffects.

(** ** More about [twigsnake]: runs, frames and composition *)

Section TwigsnakeMore.
Import twigsnake.



(** X2. A run of operations on one facade never changes a standard logger
    that none of its eight fields points to. *)
Theorem run_spares_foreign_loggers (os : list Op) (st st' : St) (a : nat) :
  run os st = Ok (tt, st') ->
  (forall s, handle s (this st) <> addr a) ->
  log.heap (world st') !! a = log.heap (world st) !! a.
Proof.
  intros E Ha. destruct (run_effect os st st' E) as (_ & _ & Hf & _).
  by apply Hf.
Qed.

(** The second program of the documentation, run where a standard logger
    of someone else lives at address 0: it is left as it was. *)
Lemma run_spares_foreign_loggers_witness :
  exists st',
    run (advanced_usage "debug.log") (guest 7) = Ok (tt, st') /\
    log.heap (world st') !! 0 = Some foreign.
Proof.
  eexists.
  assert (E : run (advanced_usage "debug.log") (guest 7) = Ok (tt, _))
    by reflexivity.
  split; [exact E|].
  rewrite (run_spares_foreign_loggers _ _ _ 0 E); [reflexivity|].
  intros s. destruct s; discriminate.
Defined.

(** X3. Two facades built by two successive calls of [New] share no
    standard logger, whatever destinations they were given; any run of
    operations on either of them completes and leaves each standard
    logger of the other with its destination, prefix and flags. *)
Theorem two_loggers_independent
        (lvl1 lvl2 : Z) (dest1 dest2 : Writer) (h0 h1 h2 : log.World)
        (l1 l2 : Logger) (os : list Op) :
  New lvl1 dest1 h0 = ((Some l1, None), h1) ->
  New lvl2 dest2 h1 = ((Some l2, None), h2) ->
  (forall s s', handle s l1 <> handle s' l2) /\
  (exists st1,
      run os (mkMem l1 h2) = Ok (tt, st1) /\
      forall s, sublogger s (mkMem l2 (world st1))
                = Some (log.mkLogger dest2 (bracket s) default_flags)) /\
  (exists st2,
      run os (mkMem l2 h2) = Ok (tt, st2) /\
      forall s, sublogger s (mkMem l1 (world st2))
                = Some (log.mkLogger dest1 (bracket s) default_flags)).
Proof.
  intros E1 E2.
  destruct (checkLogLevel_cases lvl1) as [[Hin1 _]|[Hout1 _]];
    [|by rewrite New_fails in E1].
  destruct (checkLogLevel_cases lvl2) as [[Hin2 _]|[Hout2 _]];
    [|by rewrite New_fails in E2].
  rewrite New_succeeds in E1 by done. injection E1 as <- <-.
  rewrite New_succeeds in E2 by done. injection E2 as <- <-.
  simpl log.heap. rewrite length_app. simpl length.
  set (n := length (log.heap h0)).
  assert (Hd : forall s s', handle s (mkLogger lvl1 (addr n) (addr (n + 1))
                 (addr (n + 2)) (addr (n + 3)) (addr (n + 4)) (addr (n + 5))
                 (addr (n + 6)) (addr (n + 7)))
               <> handle s' (mkLogger lvl2 (addr (n + 8)) (addr (n + 8 + 1))
                 (addr (n + 8 + 2)) (addr (n + 8 + 3)) (addr (n + 8 + 4))
                 (addr (n + 8 + 5)) (addr (n + 8 + 6)) (addr (n + 8 + 7)))).
  { intros s s'. destruct s, s'; simpl; intros [= H]; lia. }
  split; [exact Hd|]. split.
  - match goal with |- exists st1, run os ?st = _ /\ _ =>
      assert (Hwf : wf st)
    end.
    { split; [done|]. exists n. split.
      - simpl. rewrite !length_app. simpl. lia.
      - intros s. destruct s; simpl; f_equal; lia. }
    destruct (run_wf os _ Hwf) as (st1 & E & _). exists st1. split; [done|].
    destruct (run_effect os _ _ E) as (_ & _ & Hf & _). simpl in Hf.
    intros s. unfold sublogger. simpl this. simpl world.
    assert (Ha : handle s (mkLogger lvl2 (addr (n + 8)) (addr (n + 8 + 1))
                 (addr (n + 8 + 2)) (addr (n + 8 + 3)) (addr (n + 8 + 4))
                 (addr (n + 8 + 5)) (addr (n + 8 + 6)) (addr (n + 8 + 7)))
                 = addr (n + 8 + index s))
      by (destruct s; simpl; f_equal; lia).
    rewrite Ha. rewrite Hf.
    + replace (n + 8) with (length (log.heap h0 ++
        [log.mkLogger dest1 "[EMERG] " default_flags;
         log.mkLogger dest1 "[ALERT] " default_flags;
         log.mkLogger dest1 "[CRIT] " default_flags;
         log.mkLogger dest1 "[ERROR] " default_flags;
         log.mkLogger dest1 "[WARN] " default_flags;
         log.mkLogger dest1 "[NOTICE] " default_flags;
         log.mkLogger dest1 "[INFO] " default_flags;
         log.mkLogger dest1 "[DEBUG] " default_flags]))
        by (rewrite length_app; simpl; lia).
      rewrite lookup_app_plus. by destruct s.
    + intros s'. rewrite <- Ha. apply Hd.
  - match goal with |- exists st2, run os ?st = _ /\ _ =>
      assert (Hwf : wf st)
    end.
    { split; [done|]. exists (n + 8). split.
      - simpl. rewrite !length_app. simpl. lia.
      - intros s. destruct s; simpl; f_equal; lia. }
    destruct (run_wf os _ Hwf) as (st2 & E & _). exists st2. split; [done|].
    destruct (run_effect os _ _ E) as (_ & _ & Hf & _). simpl in Hf.
    intros s. unfold sublogger. simpl this. simpl world.
    assert (Ha : handle s (mkLogger lvl1 (addr n) (addr (n + 1))
                 (addr (n + 2)) (addr (n + 3)) (addr (n + 4)) (addr (n + 5))
                 (addr (n + 6)) (addr (n + 7)))
                 = addr (n + index s))
      by (destruct s; simpl; f_equal; lia).
    rewrite Ha. rewrite Hf.
    + rewrite <- app_assoc. subst n. rewrite lookup_app_plus. by destruct s.
    + intros s' H. apply (Hd s s'). by rewrite Ha.
Qed.

(** A console logger at error(3) and a file logger at debug(7), built one
    after the other: reconfiguring the first leaves the second alone. *)
Lemma two_loggers_independent_witness :
  exists l2 h2,
    New 7 "debug.log" demo_world = ((Some l2, None), h2) /\
    exists st1,
      run (advanced_usage "trace.log") (mkMem (demo_logger 3) h2)
      = Ok (tt, st1) /\
      sublogger SevDebug (mkMem l2 (world st1))
      = Some (log.mkLogger "debug.log" "[DEBUG] " default_flags).
Proof.
  eexists _, _.
  assert (E2 : New 7 "debug.log" demo_world = ((Some _, None), _))
    by reflexivity.
  split; [exact E2|].
  destruct (two_loggers_independent
              3 7 stdout "debug.log" (log.mkWorld [] []) demo_world _
              (demo_logger 3) _ (advanced_usage "trace.log") eq_refl E2)
    as (_ & (st1 & E & H) & _).
  exists st1. split; [exact E|]. apply (H SevDebug).
Defined.

(** X4. In a state reached from a successful [New], two reconfigurations
    commute unless they set the same attribute of the same severity's
    logger; both orders complete in the same state.  A reconfiguration
    also commutes with [SetLogLevel]. *)
Theorem reconfigurations_commute
        (st : St) (o1 o2 : Op) (s1 s2 : Severity) (lvl : Z) :
  reachable st ->
  target o1 = Some s1 -> target o2 = Some s2 ->
  s1 <> s2 \/ attr o1 <> attr o2 ->
  (exists st', run [o1; o2] st = Ok (tt, st') /\
               run [o2; o1] st = Ok (tt, st')) /\
  run [o1; OSetLogLevel lvl] st = run [OSetLogLevel lvl; o1] st.
Proof.
  intros Hr Ht1 Ht2 Hne. pose proof (reachable_wf st Hr) as Hwf.
  destruct (wf_sublogger s1 st Hwf) as [sub1 Hsub1].
  destruct (wf_sublogger s2 st Hwf) as [sub2 Hsub2].
  unfold sublogger in Hsub1, Hsub2.
  destruct (handle s1 (this st)) as [|a1] eqn:Ha1; [done|].
  destruct (handle s2 (this st)) as [|a2] eqn:Ha2; [done|].
  pose proof (step_reconf o1 s1 a1 sub1 st Ht1 Ha1 Hsub1) as E1.
  pose proof (step_reconf o2 s2 a2 sub2 st Ht2 Ha2 Hsub2) as E2.
  pose proof (lookup_lt_Some _ _ _ Hsub1) as Hlt1.
  pose proof (lookup_lt_Some _ _ _ Hsub2) as Hlt2.
  split.
  - set (st1 := mkMem (this st)
                      (log.mkWorld (<[a1:=reconf o1 sub1]> (log.heap (world st)))
                                   (log.written (world st)))) in *.
    set (st2 := mkMem (this st)
                      (log.mkWorld (<[a2:=reconf o2 sub2]> (log.heap (world st)))
                                   (log.written (world st)))) in *.
    simpl run. unfold bind. rewrite E1, E2.
    destruct (Severity_dec s1 s2) as [Hs|Hs].
    + subst s2. destruct Hne as [Hne|Hne]; [done|].
      rewrite Ha1 in Ha2. injection Ha2 as <-.
      rewrite Hsub1 in Hsub2. injection Hsub2 as <-.
      rewrite (step_reconf o2 s1 a1 (reconf o1 sub1) st1 Ht2 Ha1)
        by (by apply list_lookup_insert_eq).
      rewrite (step_reconf o1 s1 a1 (reconf o2 sub1) st2 Ht1 Ha1)
        by (by apply list_lookup_insert_eq).
      simpl. rewrite !list_insert_insert_eq.
      rewrite (reconf_commute o1 o2) by done. eauto.
    + assert (Ha : a1 <> a2).
      { pose proof (wf_handles_distinct s1 s2 st Hwf Hs) as Hd.
        rewrite Ha1, Ha2 in Hd. congruence. }
      rewrite (step_reconf o2 s2 a2 sub2 st1 Ht2 Ha2)
        by (simpl; by rewrite list_lookup_insert_ne).
      rewrite (step_reconf o1 s1 a1 sub1 st2 Ht1 Ha1)
        by (simpl; by rewrite list_lookup_insert_ne).
      simpl. rewrite (list_insert_insert_ne _ a2 a1) by done. eauto.
  - simpl run. unfold bind. rewrite E1.
    destruct (decide (0 <= lvl <= 7)%Z) as [Hin|Hout].
    + rewrite !SetLogLevel_in by done. simpl.
      rewrite (step_reconf o1 s1 a1 sub1
                 (mkMem (set_logLevel lvl (this st)) (world st)) Ht1)
        by (simpl; by rewrite ?handle_set_logLevel).
      reflexivity.
    + rewrite !SetLogLevel_out by done. simpl. by rewrite E1.
Qed.

Lemma reconfigurations_commute_witness :
  reachable (demo 7) /\
  run [OSetPrefix SevDebug ""; OSetOutput SevDebug "debug.log"] (demo 7)
  = run [OSetOutput SevDebug "debug.log"; OSetPrefix SevDebug ""] (demo 7).
Proof.
  assert (R : reachable (demo 7)) by demo_reached 7%Z.
  split; [exact R|].
  destruct (reconfigurations_commute
              (demo 7) (OSetPrefix SevDebug "") (OSetOutput SevDebug "debug.log")
              SevDebug SevDebug 0 R eq_refl eq_refl)
    as [(st' & -> & ->) _]; [right; discriminate|reflexivity].
Defined.

(** X5. In a state reached from a successful [New], setting the flags, the
    prefix and the output of one severity's logger completes, changes
    neither the facade nor the lines written, and leaves that logger with
    exactly the three values given, whatever it held before; the next
    emission at that severity is decided by the level as before and, when
    it passes, is written under the new configuration. *)
Theorem setters_determine_configuration
        (st : St) (s : Severity) (w : Writer) (p : string) (f : Z)
        (k : Variant) (format : string) (v : list Value) :
  reachable st ->
  exists st1,
    run [OSetFlags s f; OSetPrefix s p; OSetOutput s w] st = Ok (tt, st1) /\
    this st1 = this st /\
    log.written (world st1) = log.written (world st) /\
    sublogger s st1 = Some (log.mkLogger w p f) /\
    emit s k format v st1
    = Ok (tt, if (logLevel (this st) >=? rank s)%Z
              then add_line st1 (log.mkEntry (log.mkLogger w p f)
                                             (call_of k format v))
              else st1).
Proof.
  intros Hr. pose proof (reachable_wf st Hr) as Hwf.
  destruct (run_wf [OSetFlags s f; OSetPrefix s p; OSetOutput s w] st Hwf)
    as (st3 & E & Hwf3).
  exists st3. split; [exact E|].
  apply run_cons_inv in E as (st1 & E1 & E).
  apply run_cons_inv in E as (st2 & E2 & E).
  apply run_cons_inv in E as (st3' & E3 & E). injection E as ->.
  destruct (reconf_inv (OSetFlags s f) s _ _ eq_refl E1)
    as (a & sub & Ha & Hsub & ->).
  destruct (reconf_inv (OSetPrefix s p) s _ _ eq_refl E2)
    as (a' & sub' & Ha' & Hsub' & ->).
  simpl in Ha'. rewrite Ha in Ha'. injection Ha' as <-.
  destruct (reconf_inv (OSetOutput s w) s _ _ eq_refl E3)
    as (a' & sub3 & Ha3 & Hsub3 & ->).
  simpl in Ha3. rewrite Ha in Ha3. injection Ha3 as <-.
  pose proof (lookup_lt_Some _ _ _ Hsub) as Hlt.
  simpl in Hsub', Hsub3.
  rewrite list_lookup_insert_eq in Hsub' by done. injection Hsub' as <-.
  rewrite list_lookup_insert_eq in Hsub3 by (by rewrite length_insert).
  injection Hsub3 as <-.
  assert (Hs : sublogger s (mkMem (this st)
                 (log.mkWorld
                    (<[a:=reconf (OSetOutput s w)
                            (reconf (OSetPrefix s p)
                                    (reconf (OSetFlags s f) sub))]>
                       (<[a:=reconf (OSetPrefix s p)
                               (reconf (OSetFlags s f) sub)]>
                          (<[a:=reconf (OSetFlags s f) sub]>
                             (log.heap (world st)))))
                    (log.written (world st))))
               = Some (log.mkLogger w p f)).
  { unfold sublogger. simpl. rewrite Ha.
    rewrite list_lookup_insert_eq by (by rewrite !length_insert). done. }
  split; [done|]. split; [done|]. split; [exact Hs|].
  destruct (emit_result s k format v _ Hwf3) as (sub3 & Hsub3 & ->).
  assert (Heq : Some sub3 = Some (log.mkLogger w p f))
    by (rewrite <- Hsub3; exact Hs).
  by injection Heq as ->.
Qed.

(** The second program of the documentation: the debug logger gets
    microsecond stamps, no prefix and a file; a debug message is then
    written to the file under that configuration. *)
Lemma setters_determine_configuration_witness :
  reachable (demo 7) /\
  exists st1,
    run [OSetFlags SevDebug (Z.lor log.Ldate log.Lmicroseconds);
         OSetPrefix SevDebug ""; OSetOutput SevDebug "debug.log"] (demo 7)
    = Ok (tt, st1) /\
    Debugln [VString "Debug message"] st1
    = Ok (tt, add_line st1 (log.mkEntry (log.mkLogger "debug.log" "" 5)
                                        (log.CPrintln [VString "Debug message"]))).
Proof.
  assert (R : reachable (demo 7)) by demo_reached 7%Z.
  split; [exact R|].
  destruct (setters_determine_configuration
              (demo 7) SevDebug "debug.log" ""
              (Z.lor log.Ldate log.Lmicroseconds) Line ""
              [VString "Debug message"] R)
    as (st1 & E & _ & _ & _ & Hemit).
  exists st1. split; [exact E|]. exact Hemit.
Defined.

(** X6. The filter is monotone.  In a state reached from a successful
    [New], if an emission at some severity writes a line, then so does an
    emission at every severity of lower or equal rank, and so does the
    same emission after [SetLogLevel] has raised the level to any valid
    value: messages "appear on that level and higher". *)
Theorem filter_monotone
        (st : St) (s s' : Severity) (T' : Z) (k : Variant)
        (format : string) (v : list Value) :
  reachable st ->
  (exists st1, emit s k format v st = Ok (tt, st1) /\ one_more_line st st1) ->
  (rank s' <= rank s)%Z ->
  (logLevel (this st) <= T' <= 7)%Z ->
  (exists st2, emit s' k format v st = Ok (tt, st2) /\ one_more_line st st2) /\
  (exists st3 st4,
      SetLogLevel T' st = Ok (None, st3) /\
      emit s k format v st3 = Ok (tt, st4) /\ one_more_line st3 st4).
Proof.
  intros Hr (st1 & E1 & H1) Hs HT. pose proof (reachable_wf st Hr) as Hwf.
  destruct (emit_writes_iff s k format v st Hwf) as (st1' & E1' & Hiff).
  rewrite E1 in E1'. injection E1' as <-. apply Hiff in H1.
  pose proof (proj1 Hwf) as Hlvl.
  split.
  - destruct (emit_writes_iff s' k format v st Hwf) as (st2 & E2 & Hiff2).
    exists st2. split; [done|]. apply Hiff2. lia.
  - assert (HT' : (0 <= T' <= 7)%Z) by lia.
    pose proof (wf_with_level T' st HT' Hwf) as Hwf3.
    destruct (emit_writes_iff s k format v _ Hwf3) as (st4 & E4 & Hiff4).
    exists (with_level T' st), st4.
    split; [by apply SetLogLevel_in|]. split; [done|].
    apply Hiff4. simpl. lia.
Qed.

(** At notice(5) a warning is written; hence so is an error, and so is the
    warning once the level has been raised to debug(7). *)
Lemma filter_monotone_witness :
  reachable (demo 5) /\
  (exists st2, Error [VString "w"] (demo 5) = Ok (tt, st2) /\
               one_more_line (demo 5) st2) /\
  (exists st3 st4,
      SetLogLevel 7 (demo 5) = Ok (None, st3) /\
      Warn [VString "w"] st3 = Ok (tt, st4) /\ one_more_line st3 st4).
Proof.
  assert (R : reachable (demo 5)) by demo_reached 5%Z.
  split; [exact R|].
  apply (filter_monotone (demo 5) SevWarn SevError 7 Plain "" [VString "w"] R).
  - eexists. split; [reflexivity|]. by eexists.
  - vm_compute. discriminate.
  - vm_compute. split; discriminate.
Defined.

(** X7. The two ends of the scale, in a state reached from a successful
    [New]: a debug message is written only at level [LOG_DEBUG], where
    every severity is written; at level [LOG_EMERG] nothing but an
    emergency message is written. *)
Theorem extreme_levels
        (st : St) (k : Variant) (format : string) (v : list Value) :
  reachable st ->
  (exists st',
      emit SevDebug k format v st = Ok (tt, st') /\
      (one_more_line st st' <-> logLevel (this st) = LOG_DEBUG)) /\
  (logLevel (this st) = LOG_DEBUG ->
   forall s, exists st',
       emit s k format v st = Ok (tt, st') /\ one_more_line st st') /\
  (logLevel (this st) = LOG_EMERG ->
   forall s, exists st',
       emit s k format v st = Ok (tt, st') /\
       (one_more_line st st' <-> s = SevEmerg)).
Proof.
  intros Hr. pose proof (reachable_wf st Hr) as Hwf.
  pose proof (proj1 Hwf) as Hlvl. split; [|split].
  - destruct (emit_writes_iff SevDebug k format v st Hwf) as (st' & E & Hiff).
    exists st'. split; [done|]. rewrite Hiff. unfold LOG_DEBUG. simpl rank.
    unfold LOG_DEBUG. lia.
  - intros H7 s.
    destruct (emit_writes_iff s k format v st Hwf) as (st' & E & Hiff).
    exists st'. split; [done|]. apply Hiff. rewrite H7.
    pose proof (rank_range s). unfold LOG_DEBUG. lia.
  - intros H0 s.
    destruct (emit_writes_iff s k format v st Hwf) as (st' & E & Hiff).
    exists st'. split; [done|]. rewrite Hiff, H0.
    destruct s; cbv; split; (done || (intros H; exfalso; by apply H)).
Qed.

Lemma extreme_levels_witness :
  reachable (demo 0) /\
  exists st',
    Critf "%s" [VString "c"] (demo 0) = Ok (tt, st') /\
    ~ one_more_line (demo 0) st'.
Proof.
  assert (R : reachable (demo 0)) by demo_reached 0%Z.
  split; [exact R|].
  destruct (extreme_levels (demo 0) Formatted "%s" [VString "c"] R)
    as (_ & _ & H0).
  destruct (H0 eq_refl SevCrit) as (st' & E & Hiff).
  exists st'. split; [exact E|]. rewrite Hiff. discriminate.
Defined.

(** X8. The guard comes before the dereference, in any state at all.  A
    guarded emission below its rank returns with the state untouched even
    when its field is nil; an emission that passes (the emergency ones
    always do) through a nil field panics.  So on the zero value
    [Logger{}] the emergency methods panic and every other emission does
    nothing. *)
Theorem guard_before_dereference
        (st : St) (s : Severity) (k : Variant) (format : string)
        (v : list Value) (h : log.World) :
  (s <> SevEmerg -> (logLevel (this st) < rank s)%Z ->
   emit s k format v st = Ok (tt, st)) /\
  (handle s (this st) = nil_ptr ->
   s = SevEmerg \/ (rank s <= logLevel (this st))%Z ->
   emit s k format v st = Fault NilDeref) /\
  emit s k format v (mkMem zero_Logger h)
  = match s with
    | SevEmerg => Fault NilDeref
    | _ => Ok (tt, mkMem zero_Logger h)
    end.
Proof.
  split; [|split].
  - intros Hs Hlt. rewrite emit_passes.
    replace (passes s (logLevel (this st))) with false; [done|].
    destruct s; try done; simpl; symmetry; rewrite Z.geb_leb;
      apply Z.leb_gt; exact Hlt.
  - intros Hnil Hp. rewrite emit_passes.
    replace (passes s (logLevel (this st))) with true.
    + unfold printed, in_world. by rewrite Hnil.
    + destruct Hp as [->|Hp]; [done|].
      destruct s; try done; simpl; symmetry; apply Z.geb_le; exact Hp.
  - by destruct s, k.
Qed.

(** On the zero value a warning is a silent no-op. *)
Lemma guard_before_dereference_witness :
  Warnln [VString "w"] (mkMem zero_Logger (log.mkWorld [] []))
  = Ok (tt, mkMem zero_Logger (log.mkWorld [] [])).
Proof.
  destruct (guard_before_dereference
              (mkMem zero_Logger (log.mkWorld [] [])) SevWarn Line ""
              [VString "w"] (log.mkWorld [] [])) as (H & _ & _).
  apply H; [discriminate|reflexivity].
Defined.

(** X9. Of two calls of [SetLogLevel] in a row the last valid one decides:
    when the second level is valid the pair acts as the second call
    alone, and when it is not the pair leaves the state of the first call
    and returns the error. *)
Theorem SetLogLevel_last_wins (st : St) (a b : Z) :
  ((0 <= b <= 7)%Z ->
   (let* _ := SetLogLevel a in SetLogLevel b) st = SetLogLevel b st) /\
  (~ (0 <= b <= 7)%Z ->
   exists r st1,
     SetLogLevel a st = Ok (r, st1) /\
     (let* _ := SetLogLevel a in SetLogLevel b) st
     = Ok (Some InvalidSeverityError, st1)).
Proof.
  unfold bind. split; intros Hb.
  - destruct (decide (0 <= a <= 7)%Z) as [Hin|Hout].
    + rewrite (SetLogLevel_in a st Hin). by rewrite !SetLogLevel_in.
    + by rewrite (SetLogLevel_out a st Hout).
  - destruct (decide (0 <= a <= 7)%Z) as [Hin|Hout].
    + rewrite (SetLogLevel_in a st Hin). do 2 eexists. split; [done|].
      by rewrite SetLogLevel_out.
    + rewrite (SetLogLevel_out a st Hout). do 2 eexists. split; [done|].
      by rewrite SetLogLevel_out.
Qed.

Lemma SetLogLevel_last_wins_witness :
  (let* _ := SetLogLevel 2 in SetLogLevel 6) (demo 4) = Ok (None, demo 6).
Proof.
  destruct (SetLogLevel_last_wins (demo 4) 2 6) as [H _].
  rewrite H by lia. reflexivity.
Defined.

End TwigsnakeMore.

(** ** More about [nlog] *)

Section NlogMore.

Lemma of_res_bind {A B} (m : M twigsnake.St A) (m' : M nlog.St A)
      (k : A -> M twigsnake.St B) (k' : A -> M nlog.St B) (st : twigsnake.St) :
  m' (nlog.of_St st) = nlog.of_res (m st) ->
  (forall a st1, k' a (nlog.of_St st1) = nlog.of_res (k a st1)) ->
  bind m' k' (nlog.of_St st) = nlog.of_res (bind m k st).
Proof.
  intros Hm Hk. unfold bind. rewrite Hm.
  destruct (m st) as [[a st1]|]; simpl; [apply Hk|done].
Qed.

Lemma nlog_run_sim_free os (st : twigsnake.St) :
  NlogObs.no_Errorln os = true ->
  nlog.run os (nlog.of_St st) = nlog.of_res (twigsnake.run os st).
Proof.
  revert st. induction os as [|o os IH]; intros st H; [done|].
  simpl in H. apply andb_prop in H as [Ho Hos].
  apply negb_true_iff in Ho.
  simpl. apply of_res_bind; [by apply nlog_step_sim|].
  intros _ st1. by apply IH.
Qed.

(** From a well-formed state a run of [nlog] goes as far as its first
    [Errorln] and no further. *)
Lemma nlog_run_outcome os (st : twigsnake.St) :
  wf st ->
  if NlogObs.no_Errorln os
  then exists st', nlog.run os (nlog.of_St st) = Ok (tt, nlog.of_St st') /\
                   wf st'
  else nlog.run os (nlog.of_St st) = Fault (NoField "loglLevel").
Proof.
  revert st. induction os as [|o os IH]; intros st Hwf; simpl.
  - by exists st.
  - unfold bind. destruct (NlogObs.is_Errorln o) eqn:Ho; simpl.
    + by rewrite nlog_step_Errorln.
    + rewrite nlog_step_sim by done.
      destruct (step_wf o st Hwf) as (st1 & -> & Hwf1). simpl.
      by apply IH.
Qed.

Lemma nlog_New_ok lvl dest h0 n h1 :
  nlog.New lvl dest h0 = ((Some n, None), h1) ->
  exists l, n = nlog.of_Logger l /\
            twigsnake.New lvl dest h0 = ((Some l, None), h1).
Proof.
  rewrite nlog_New_sim.
  destruct (twigsnake.New lvl dest h0) as [[[l|] e] h'] eqn:E; [|done].
  simpl. intros [= <- -> <-]. by exists l.
Qed.

(** X10. Apart from [Errorln], [nlog] is [twigsnake] under another name:
    the constructors build the same logger in the same world, the level
    accessors return the same values, each of the other 23 emission
    methods has the same outcome, and any sequence of operations without
    [Errorln] runs to the same outcome, fault or final state. *)
Theorem nlog_agrees_with_twigsnake :
  (forall lvl dest h,
      nlog.New lvl dest h
      = let '((l, e), h') := twigsnake.New lvl dest h in
        ((nlog.of_Logger <$> l, e), h')) /\
  (forall st,
      nlog.LogLevel (nlog.of_St st) = nlog.of_res (twigsnake.LogLevel st)) /\
  (forall lvl st,
      nlog.SetLogLevel lvl (nlog.of_St st)
      = nlog.of_res (twigsnake.SetLogLevel lvl st)) /\
  (forall s k format v st,
      NlogObs.is_Errorln (OEmit s k format v) = false ->
      nlog.emit s k format v (nlog.of_St st)
      = nlog.of_res (twigsnake.emit s k format v st)) /\
  (forall os st,
      NlogObs.no_Errorln os = true ->
      nlog.run os (nlog.of_St st) = nlog.of_res (twigsnake.run os st)).
Proof.
  split; [apply nlog_New_sim|]. split; [apply nlog_LogLevel_sim|].
  split; [apply nlog_SetLogLevel_sim|].
  split; [intros; by apply nlog_emit_sim|].
  intros; by apply nlog_run_sim_free.
Qed.

(** The first program of the documentation never calls [Errorln], so it
    runs in [nlog] as it does in [twigsnake]. *)
Lemma nlog_agrees_with_twigsnake_witness :
  nlog.run basic_usage (nlog.of_St (demo 6))
  = nlog.of_res (twigsnake.run basic_usage (demo 6)).
Proof.
  destruct nlog_agrees_with_twigsnake as (_ & _ & _ & _ & H).
  apply H. reflexivity.
Defined.

(** X11. From a successful [nlog.New], a sequence of operations runs to
    completion if and only if it contains no call of [Errorln]; a sequence
    that contains one stops at its guard.  A run that completes ends with
    the level in [0,7]. *)
Theorem nlog_run_completes_iff
        (lvl : Z) (dest : Writer) (h0 h1 : log.World) (n : nlog.NLog)
        (os : list Op) :
  nlog.New lvl dest h0 = ((Some n, None), h1) ->
  ((exists st, nlog.run os (mkMem n h1) = Ok (tt, st))
   <-> NlogObs.no_Errorln os = true) /\
  (NlogObs.no_Errorln os = false ->
   nlog.run os (mkMem n h1) = Fault (NoField "loglLevel")) /\
  (forall st, nlog.run os (mkMem n h1) = Ok (tt, st) ->
              (0 <= nlog.logLevel (this st) <= 7)%Z).
Proof.
  intros HN. destruct (nlog_New_ok _ _ _ _ _ HN) as (l & -> & HT).
  pose proof (New_wf _ _ _ _ _ HT) as Hwf.
  pose proof (nlog_run_outcome os _ Hwf) as H.
  change (mkMem (nlog.of_Logger l) h1) with (nlog.of_St (mkMem l h1)).
  destruct (NlogObs.no_Errorln os).
  - destruct H as (st' & E & Hwf'). rewrite E.
    split; [split; [done|by eexists]|]. split; [done|].
    intros st [= <-]. apply Hwf'.
  - rewrite H. split; [split; [by intros [st [=]]|done]|]. by split.
Qed.

Lemma nlog_run_completes_iff_witness :
  nlog.New 3 stdout (log.mkWorld [] [])
  = ((Some (nlog.of_Logger (demo_logger 3)), None), demo_world) /\
  nlog.run [OEmit SevError Plain "" [VString "e"];
            OEmit SevError Line "" [VString "Failed to change logging level:"];
            OEmit SevEmerg Plain "" [VString "m"]]
           (nlog.of_St (demo 3))
  = Fault (NoField "loglLevel").
Proof.
  split; [reflexivity|].
  destruct (nlog_run_completes_iff
              3 stdout (log.mkWorld [] []) demo_world
              (nlog.of_Logger (demo_logger 3))
              [OEmit SevError Plain "" [VString "e"];
               OEmit SevError Line "" [VString "Failed to change logging level:"];
               OEmit SevEmerg Plain "" [VString "m"]] eq_refl)
    as (_ & H & _).
  apply H. reflexivity.
Defined.

(** X12. In a state of [nlog] reached from a successful [New], each of the
    23 emission methods other than [Errorln] returns, and writes one line
    under its severity's logger if the level is at least the severity's
    rank, and leaves the state untouched if not. *)
Theorem nlog_emission_iff_threshold
        (st : nlog.St) (s : Severity) (k : Variant) (format : string)
        (v : list Value) :
  NlogObs.reachable st ->
  NlogObs.is_Errorln (OEmit s k format v) = false ->
  exists sub,
    NlogObs.sublogger s st = Some sub /\
    nlog.emit s k format v st
    = Ok (tt, if (nlog.logLevel (this st) >=? NlogObs.rank s)%Z
              then add_line st (log.mkEntry sub (call_of k format v))
              else st).
Proof.
  intros Hr Hk. destruct (nlog_reachable_wf st Hr) as (st1 & -> & Hwf).
  destruct (emit_result s k format v st1 Hwf) as (sub & Hsub & E).
  exists sub. split; [by rewrite nlog_sublogger|].
  rewrite nlog_emit_sim by done. rewrite E.
  change (NlogObs.rank s) with (twigsnake.rank s). simpl.
  by destruct (_ >=? _)%Z.
Qed.

Lemma nlog_emission_iff_threshold_witness :
  NlogObs.reachable (nlog.of_St (demo 3)) /\
  nlog.Error [VString "e"] (nlog.of_St (demo 3))
  = Ok (tt, add_line (nlog.of_St (demo 3))
                     (log.mkEntry (log.mkLogger stdout "[ERROR] " 67)
                                  (log.CPrint [VString "e"]))) /\
  nlog.Warnf "%s" [VString "w"] (nlog.of_St (demo 3))
  = Ok (tt, nlog.of_St (demo 3)).
Proof.
  assert (R : NlogObs.reachable (nlog.of_St (demo 3))).
  { exists 3%Z, stdout, (log.mkWorld [] []), (nlog.of_Logger (demo_logger 3)),
      demo_world, []. split; reflexivity. }
  split; [exact R|]. split.
  - destruct (nlog_emission_iff_threshold
                (nlog.of_St (demo 3)) SevError Plain "" [VString "e"] R eq_refl)
      as (sub & Hsub & E).
    injection Hsub as <-. exact E.
  - destruct (nlog_emission_iff_threshold
                (nlog.of_St (demo 3)) SevWarn Formatted "%s" [VString "w"] R
                eq_refl)
      as (sub & Hsub & E).
    exact E.
Defined.

(** X13. [nlog.New] returns the error, no logger and the world untouched
    for a level outside [0,7].  For a level inside it returns a logger
    reporting that level, writes nothing, keeps every standard logger
    that exists and allocates exactly eight more, one per severity, each
    bound to the destination, with the severity's bracketed prefix and
    the flags [Ldate|Ltime|Lmsgprefix]. *)
Theorem nlog_New_spec (lvl : Z) (dest : Writer) (h : log.World) :
  (~ (0 <= lvl <= 7)%Z ->
   nlog.New lvl dest h = ((None, Some InvalidSeverityError), h)) /\
  ((0 <= lvl <= 7)%Z ->
   exists n h',
     nlog.New lvl dest h = ((Some n, None), h') /\
     nlog.LogLevel (mkMem n h') = Ok (lvl, mkMem n h') /\
     log.written h' = log.written h /\
     length (log.heap h') = length (log.heap h) + 8 /\
     (forall a, a < length (log.heap h) ->
                log.heap h' !! a = log.heap h !! a) /\
     forall s,
       NlogObs.sublogger s (mkMem n h')
       = Some (log.mkLogger dest (bracket s)
                 (Z.lor (Z.lor log.Ldate log.Ltime) log.Lmsgprefix))).
Proof.
  rewrite nlog_New_sim. split; intros H.
  - by rewrite New_fails.
  - pose proof (New_succeeds lvl dest h H) as E. simpl in E. rewrite E.
    do 2 eexists. split; [done|]. split; [done|]. split; [done|].
    split; [simpl; rewrite length_app; simpl; lia|].
    split; [intros a Ha; simpl; by rewrite lookup_app_l|].
    intros s.
    match goal with |- NlogObs.sublogger s (mkMem (nlog.of_Logger ?l) ?w) = _ =>
      change (NlogObs.sublogger s (nlog.of_St (mkMem l w)) = 
              Some (log.mkLogger dest (bracket s) twigsnake.default_flags))
    end.
    rewrite nlog_sublogger, sublogger_fresh. by destruct s.
Qed.

Lemma nlog_New_spec_witness :
  nlog.New 8 stdout demo_world = ((None, Some InvalidSeverityError), demo_world) /\
  exists n h',
    nlog.New 7 stdout demo_world = ((Some n, None), h') /\
    NlogObs.sublogger SevNotice (mkMem n h')
    = Some (log.mkLogger stdout "[NOTICE] " 67).
Proof.
  split.
  - destruct (nlog_New_spec 8 stdout demo_world) as [H _]. apply H. lia.
  - destruct (nlog_New_spec 7 stdout demo_world) as [_ H].
    destruct H as (n & h' & E & _ & _ & _ & _ & Hs); [lia|].
    exists n, h'. split; [exact E|]. apply (Hs SevNotice).
Defined.

(** X14. [nlog.SetLogLevel], in any state: for a level outside [0,7] it
    returns the error and the state as it was; for a level inside it
    returns nil and overwrites the level alone, [LogLevel] then returns
    the new level, and every emission method but [Errorln] is decided by
    it at once, whether its field is nil or not. *)
Theorem nlog_SetLogLevel_spec (st : nlog.St) (lvl : Z) :
  (~ (0 <= lvl <= 7)%Z ->
   nlog.SetLogLevel lvl st = Ok (Some InvalidSeverityError, st)) /\
  ((0 <= lvl <= 7)%Z ->
   let st' := NlogObs.with_level lvl st in
   nlog.SetLogLevel lvl st = Ok (None, st') /\
   nlog.LogLevel st' = Ok (lvl, st') /\
   forall s k format v,
     NlogObs.is_Errorln (OEmit s k format v) = false ->
     nlog.emit s k format v st'
     = if (lvl >=? NlogObs.rank s)%Z
       then in_world (log.Output (nlog.handle s (this st))
                                 (call_of k format v)) st'
       else Ok (tt, st')).
Proof.
  split; intros H.
  - unfold nlog.SetLogLevel.
    change (nlog.checkLogLevel lvl) with (twigsnake.checkLogLevel lvl).
    by rewrite checkLogLevel_out.
  - intros st'. split; [|split; [done|]].
    + unfold nlog.SetLogLevel.
      change (nlog.checkLogLevel lvl) with (twigsnake.checkLogLevel lvl).
      by rewrite checkLogLevel_in.
    + intros s k format v Hk. rewrite nlog_emit_passes by done.
      simpl. rewrite passes_rank by lia.
      change (NlogObs.rank s) with (twigsnake.rank s).
      by destruct st as [[] w], s.
Qed.

(** Scenario D of the specification, in [nlog]. *)
Lemma nlog_SetLogLevel_spec_witness :
  nlog.SetLogLevel 9 (nlog.of_St (demo 3))
  = Ok (Some InvalidSeverityError, nlog.of_St (demo 3)) /\
  nlog.SetLogLevel 7 (nlog.of_St (demo 3)) = Ok (None, nlog.of_St (demo 7)).
Proof.
  destruct (nlog_SetLogLevel_spec (nlog.of_St (demo 3)) 9) as [H9 _].
  destruct (nlog_SetLogLevel_spec (nlog.of_St (demo 3)) 7) as [_ H7].
  split; [apply H9; lia|]. destruct H7 as [E _]; [lia|]. exact E.
Defined.

End NlogMore.
